(** * PaperMind: the section segmenter, entity engine, flowchart extractor and
      hierarchical summarizer of [main.py], embedded in Rocq.

    Conventions of the embedding.

    - A Python [str] is a [string]; a character is an [ascii].  The character
      classes ([str.isalpha], [str.lower], [string.punctuation], the regex
      escapes [\s], [\d], [\w]) are those of Python on 7-bit text.
    - [re] patterns are transcribed as terms of [regex] and run by a
      backtracking matcher with the priorities of Python's engine (leftmost
      match, greedy repetition, alternatives tried left to right).
    - External capabilities (the NLTK sentence tokenizer, the embedding model,
      the LED generator, KeyBERT, the PDF reader) are parameters: every
      theorem holds for whatever they compute, and for wherever they raise.
    - Font sizes, coordinates and similarity scores are the rationals that
      the floats denote.
    - The mutable fields of [HierarchicalSummarizer] are a record threaded
      through a small state/exception monad that also logs every model
      load, unload and use. *)

From stdpp Require Import gmap strings list sorting.
From Stdlib Require Import Ascii String DecimalString QArith Qround Lia.

Open Scope string_scope.
Open Scope list_scope.
Open Scope nat_scope.

(** ** Characters *)

Module Char.

Definition code (c : ascii) : nat := nat_of_ascii c.

Definition in_range (lo hi : nat) (c : ascii) : bool :=
  (lo <=? code c) && (code c <=? hi).

Definition is_upper (c : ascii) : bool := in_range 65 90 c.
Definition is_lower (c : ascii) : bool := in_range 97 122 c.
Definition is_digit (c : ascii) : bool := in_range 48 57 c.

(** [c.isalpha()] *)
Definition isalpha (c : ascii) : bool := is_upper c || is_lower c.

(** The characters [\w] matches. *)
Definition is_word (c : ascii) : bool :=
  isalpha c || is_digit c || (code c =? 95).

(** [c.isspace()], which is also what [\s] matches: tab, line feed, vertical
    tab, form feed, carriage return, the four separators 28-31 and space. *)
Definition isspace (c : ascii) : bool :=
  in_range 9 13 c || in_range 28 31 c || (code c =? 32).

(** [c in string.punctuation] *)
Definition is_punctuation (c : ascii) : bool :=
  in_range 33 47 c || in_range 58 64 c || in_range 91 96 c || in_range 123 126 c.

Definition lower (c : ascii) : ascii :=
  if is_upper c then ascii_of_nat (code c + 32) else c.

Definition upper (c : ascii) : ascii :=
  if is_lower c then ascii_of_nat (code c - 32) else c.

Definition eqb (a b : ascii) : bool := Ascii.eqb a b.

Definition quote : ascii := ascii_of_nat 34.
Definition newline : ascii := ascii_of_nat 10.

End Char.

(** ** Python string operations *)

Module Str.

Definition len (s : string) : nat := String.length s.

(** [s[:n]] *)
Fixpoint take (n : nat) (s : string) : string :=
  match n, s with
  | S n', String c s' => String c (take n' s')
  | _, _ => EmptyString
  end.

(** [s[n:]] *)
Fixpoint drop (n : nat) (s : string) : string :=
  match n, s with
  | S n', String _ s' => drop n' s'
  | _, _ => s
  end.

Fixpoint map (f : ascii -> ascii) (s : string) : string :=
  match s with
  | EmptyString => EmptyString
  | String c s' => String (f c) (map f s')
  end.

(** [s.lower()] *)
Definition lower (s : string) : string := map Char.lower s.

Fixpoint rev_onto (s acc : string) : string :=
  match s with
  | EmptyString => acc
  | String c s' => rev_onto s' (String c acc)
  end.

Definition rev (s : string) : string := rev_onto s EmptyString.

(** [s.lstrip()] *)
Fixpoint lstrip (s : string) : string :=
  match s with
  | String c s' => if Char.isspace c then lstrip s' else s
  | EmptyString => EmptyString
  end.

(** [s.rstrip()] *)
Definition rstrip (s : string) : string := rev (lstrip (rev s)).

(** [s.strip()] *)
Definition strip (s : string) : string := rstrip (lstrip s).

(** [s.startswith(p)] *)
Fixpoint startswith (s p : string) : bool :=
  match p, s with
  | EmptyString, _ => true
  | String a p', String b s' => Char.eqb a b && startswith s' p'
  | String _ _, EmptyString => false
  end.

(** [s.endswith(p)] *)
Definition endswith (s p : string) : bool := startswith (rev s) (rev p).

(** [p in s] *)
Fixpoint contains (s p : string) : bool :=
  startswith s p ||
  match s with
  | EmptyString => false
  | String _ s' => contains s' p
  end.

(** [s.count(p)]: the number of non-overlapping occurrences of [p], scanning
    from the left.  For the empty pattern Python answers [len(s) + 1]. *)
Fixpoint count_from (fuel : nat) (s p : string) : nat :=
  match fuel with
  | 0 => 0
  | S fuel' =>
      if startswith s p then S (count_from fuel' (drop (len p) s) p)
      else match s with
           | EmptyString => 0
           | String _ s' => count_from fuel' s' p
           end
  end.

Definition count (s p : string) : nat :=
  match p with
  | EmptyString => S (len s)
  | _ => count_from (S (len s)) s p
  end.

(** [s.replace(a, b)] for one-character [a] and [b]. *)
Definition replace_char (a b : ascii) (s : string) : string :=
  map (fun c => if Char.eqb c a then b else c) s.

(** [s.split()]: the maximal runs of non-whitespace characters. *)
Fixpoint split_ws_aux (s : string) (cur : string) : list string :=
  match s with
  | EmptyString =>
      match cur with EmptyString => [] | _ => [rev cur] end
  | String c s' =>
      if Char.isspace c
      then match cur with
           | EmptyString => split_ws_aux s' EmptyString
           | _ => rev cur :: split_ws_aux s' EmptyString
           end
      else split_ws_aux s' (String c cur)
  end.

Definition split (s : string) : list string := split_ws_aux s EmptyString.

(** [sep.join(l)] *)
Fixpoint join (sep : string) (l : list string) : string :=
  match l with
  | [] => EmptyString
  | [x] => x
  | x :: l' => x +:+ sep +:+ join sep l'
  end.

(** [str(n)] for a non-negative integer. *)
Definition of_nat (n : nat) : string :=
  NilEmpty.string_of_uint (Nat.to_uint n).

End Str.


(** ** Regular expressions: the fragment of [re] the program uses *)

Module Re.

(** One item of a bracketed class, or a class escape. *)
Inductive citem :=
| CChar (c : ascii)          (* a literal character *)
| CRange (lo hi : ascii)     (* lo-hi *)
| CDigit                     (* \d *)
| CSpace                     (* \s *)
| CNotSpace.                 (* \S *)

Inductive regex :=
| Eps                        (* the empty pattern *)
| Lit (s : string)           (* a literal string *)
| Cls (items : list citem)   (* [...] or a class escape *)
| Seq (r1 r2 : regex)        (* r1 r2 *)
| Alt (r1 r2 : regex)        (* r1|r2 *)
| Star (r : regex)           (* r*, greedy *)
| Bol                        (* ^ *)
| WordB.                     (* \b *)

(** r? and r+, greedy as in Python *)
Definition Opt (r : regex) : regex := Alt r Eps.
Definition Plus (r : regex) : regex := Seq r (Star r).

Definition citem_matches (i : citem) (c : ascii) : bool :=
  match i with
  | CChar x => Char.eqb c x
  | CRange lo hi => Char.in_range (Char.code lo) (Char.code hi) c
  | CDigit => Char.is_digit c
  | CSpace => Char.isspace c
  | CNotSpace => negb (Char.isspace c)
  end.

(** With [re.I] a class also accepts the other case of its members. *)
Definition cls_matches (ci : bool) (items : list citem) (c : ascii) : bool :=
  existsb (fun i => citem_matches i c) items ||
  (ci && (existsb (fun i => citem_matches i (Char.lower c)) items ||
          existsb (fun i => citem_matches i (Char.upper c)) items)).

Definition chr_matches (ci : bool) (x c : ascii) : bool :=
  if ci then Char.eqb (Char.lower c) (Char.lower x) else Char.eqb c x.

Definition opt_is_word (o : option ascii) : bool :=
  match o with Some c => Char.is_word c | None => false end.

Definition first_char (s : string) : option ascii :=
  match s with String c _ => Some c | EmptyString => None end.

(** Matching a literal string at the head of the subject; the continuation
    receives the last character consumed and the rest of the subject. *)
Fixpoint match_str {A} (ci : bool) (p : string) (prev : option ascii) (s : string)
    (k : option ascii -> string -> option A) : option A :=
  match p with
  | EmptyString => k prev s
  | String x p' =>
      match s with
      | String c s' =>
          if chr_matches ci x c then match_str ci p' (Some c) s' k else None
      | EmptyString => None
      end
  end.

(** The backtracking matcher, in continuation-passing style.  [prev] is the
    character just before the current position ([None] at the start of the
    subject), [s] what is left of the subject; [k] is tried on every way of
    matching [r], in priority order, until it accepts.  A starred pattern
    iterates at most once per remaining character, an iteration that
    consumes nothing being abandoned. *)
Fixpoint rmatch {A} (ci : bool) (r : regex) (prev : option ascii) (s : string)
    (k : option ascii -> string -> option A) {struct r} : option A :=
  match r with
  | Eps => k prev s
  | Lit p => match_str ci p prev s k
  | Cls items =>
      match s with
      | String c s' => if cls_matches ci items c then k (Some c) s' else None
      | EmptyString => None
      end
  | Seq r1 r2 => rmatch ci r1 prev s (fun prev' s' => rmatch ci r2 prev' s' k)
  | Alt r1 r2 =>
      match rmatch ci r1 prev s k with
      | Some x => Some x
      | None => rmatch ci r2 prev s k
      end
  | Star r1 =>
      (fix loop (fuel : nat) (prev : option ascii) (s : string) : option A :=
         match fuel with
         | 0 => k prev s
         | S fuel' =>
             match rmatch ci r1 prev s
                     (fun prev' s' =>
                        if Str.len s' <? Str.len s then loop fuel' prev' s'
                        else None) with
             | Some x => Some x
             | None => k prev s
             end
         end) (Str.len s) prev s
  | Bol => match prev with None => k prev s | Some _ => None end
  | WordB =>
      if xorb (opt_is_word prev) (opt_is_word (first_char s))
      then k prev s else None
  end.

(** A compiled pattern: the expression and the [re.I] flag. *)
Record pattern := Pattern { expr : regex; ignorecase : bool }.

(** A match of [p] starting exactly here: the matched text, the last
    character before the position after it, and the rest of the subject. *)
Definition match_here (p : pattern) (prev : option ascii) (s : string)
    : option (string * option ascii * string) :=
  rmatch (ignorecase p) (expr p) prev s
    (fun prev' rest =>
       Some (Str.take (Str.len s - Str.len rest) s, prev', rest)).

(** [p.finditer(s)]: the texts ([m.group(0)]) of the successive
    non-overlapping matches, scanning from the left.  After an empty match
    the scan moves on by one character. *)
Fixpoint finditer_from (fuel : nat) (p : pattern) (prev : option ascii) (s : string)
    : list string :=
  match fuel with
  | 0 => []
  | S fuel' =>
      match match_here p prev s with
      | Some (m, prev', rest) =>
          match m with
          | EmptyString =>
              m :: match s with
                   | String c s' => finditer_from fuel' p (Some c) s'
                   | EmptyString => []
                   end
          | _ => m :: finditer_from fuel' p prev' rest
          end
      | None =>
          match s with
          | String c s' => finditer_from fuel' p (Some c) s'
          | EmptyString => []
          end
      end
  end.

Definition finditer (p : pattern) (s : string) : list string :=
  finditer_from (S (Str.len s)) p None s.

(** [p.search(s)] as a truth value. *)
Fixpoint search_from (p : pattern) (prev : option ascii) (s : string) : bool :=
  match match_here p prev s with
  | Some _ => true
  | None =>
      match s with
      | String c s' => search_from p (Some c) s'
      | EmptyString => false
      end
  end.

Definition search (p : pattern) (s : string) : bool := search_from p None s.

(** [p.sub(repl, s)] for a replacement without group references. *)
Fixpoint sub_from (fuel : nat) (p : pattern) (repl : string)
    (prev : option ascii) (s : string) : string :=
  match fuel with
  | 0 => s
  | S fuel' =>
      match match_here p prev s with
      | Some (m, prev', rest) =>
          match m with
          | EmptyString =>
              repl +:+ match s with
                       | String c s' => String c (sub_from fuel' p repl (Some c) s')
                       | EmptyString => EmptyString
                       end
          | _ => repl +:+ sub_from fuel' p repl prev' rest
          end
      | None =>
          match s with
          | String c s' => String c (sub_from fuel' p repl (Some c) s')
          | EmptyString => EmptyString
          end
      end
  end.

Definition sub (p : pattern) (repl : string) (s : string) : string :=
  sub_from (S (Str.len s)) p repl None s.

(** [re.escape(s)] followed by compilation: the literal [s]. *)
Definition escape (s : string) : regex := Lit s.

(** Notations for transcribing patterns. *)
Fixpoint seqs (l : list regex) : regex :=
  match l with
  | [] => Eps
  | [r] => r
  | r :: l' => Seq r (seqs l')
  end.

Fixpoint alts (l : list regex) : regex :=
  match l with
  | [] => Eps
  | [r] => r
  | r :: l' => Alt r (alts l')
  end.

Definition digit : regex := Cls [CDigit].
Definition space : regex := Cls [CSpace].
Definition nonspace : regex := Cls [CNotSpace].
Definition chars (s : string) : list citem :=
  (fix go (s : string) : list citem :=
     match s with
     | EmptyString => []
     | String c s' => CChar c :: go s'
     end) s.

End Re.

(** ** Sorting as Python's [sorted]: stable, by a comparison on keys *)

Section Sorted.
Context {A : Type} (le : A -> A -> bool).

Fixpoint insert_sorted (x : A) (l : list A) : list A :=
  match l with
  | [] => [x]
  | y :: l' => if le x y then x :: y :: l' else y :: insert_sorted x l'
  end.

(** An element goes in front of the elements that come after it in the
    input and do not compare strictly below it: equal keys keep their
    input order. *)
Definition sorted_by (l : list A) : list A := foldr insert_sorted [] l.
End Sorted.

(** [l[-k:]] for [k >= 0]; Python reads [l[-0:]] as [l[0:]]. *)
Definition slice_last {A} (k : nat) (l : list A) : list A :=
  if k =? 0 then l else drop (List.length l - k) l.

(** [max(a, b)] and [a < b] on numbers. *)
Definition Qmax (a b : Q) : Q := if Qle_bool a b then b else a.
Definition Qlt_bool (a b : Q) : bool := negb (Qle_bool b a).

(** ** AdvancedSectionExtractor *)

Module AdvancedSectionExtractor.
Import Re.

(** The table, in declaration order (the iteration order of the dict). *)
Definition SECTION_KEYWORDS : list (string * list string) :=
  [ ("abstract", ["abstract"]);
    ("introduction", ["introduction"; "background"]);
    ("related_work", ["related work"; "literature review"; "prior work"; "previous work"]);
    ("methodology", ["method"; "methodology"; "approach"; "model"; "architecture";
                     "proposed method"; "proposed approach"; "our approach"; "our method"]);
    ("experiments", ["experiment"; "experimental setup"; "experimental results";
                     "experimental design"; "evaluation setup"]);
    ("results", ["results"; "findings"; "performance"; "experimental results"]);
    ("discussion", ["discussion"; "analysis"; "ablation study"; "ablation studies"]);
    ("conclusion", ["conclusion"; "conclusions"; "concluding remarks"; "future work";
                    "summary"; "limitations"]);
    ("references", ["references"; "bibliography"; "works cited"]) ].

(** r'^\d+\.?\s*' *)
Definition numbering_prefix : pattern :=
  Pattern (seqs [Bol; Plus digit; Opt (Lit "."); Star space]) false.

(** r'^[ivxlcdm]+\.?\s*' *)
Definition roman_prefix : pattern :=
  Pattern (seqs [Bol; Plus (Cls (chars "ivxlcdm")); Opt (Lit "."); Star space]) false.

(** r'\b' + re.escape(keyword) + r'\b' *)
Definition whole_word (keyword : string) : pattern :=
  Pattern (seqs [WordB; escape keyword; WordB]) false.

Definition keyword_matches (text_clean keyword : string) : bool :=
  Str.startswith text_clean keyword
  || String.eqb text_clean keyword
  || search (whole_word keyword) text_clean.

(** The two nested loops of [_match_section]: the first section, in table
    order, one of whose keywords matches. *)
Fixpoint first_matching_section (table : list (string * list string))
    (text_clean : string) : option string :=
  match table with
  | [] => None
  | (section_name, keywords) :: table' =>
      if existsb (keyword_matches text_clean) keywords
      then Some section_name
      else first_matching_section table' text_clean
  end.

Definition _match_section (text_lower : string) : option string :=
  let text_clean := sub numbering_prefix "" text_lower in
  let text_clean := sub roman_prefix "" text_clean in
  let text_clean := Str.strip text_clean in
  first_matching_section SECTION_KEYWORDS text_clean.

(** What the layout pass hands over for a text block. *)
Record Item := {
  text : string;
  font_size : Q;
  is_bold : bool;
  is_header : bool
}.

(** [sections[current_section].append(text)] on a [defaultdict(list)]. *)
Definition append_to (sections : gmap string (list string))
    (key : string) (t : string) : gmap string (list string) :=
  <[key := default [] (sections !! key) ++ [t]]> sections.

(** The loop of [_group_into_sections], carrying [sections] and
    [current_section]. *)
Fixpoint group_loop (content : list Item)
    (sections : gmap string (list string)) (current_section : string)
    : gmap string (list string) :=
  match content with
  | [] => sections
  | item :: content' =>
      let text_lower := Str.strip (Str.lower (text item)) in
      match _match_section text_lower with
      | Some matched_section =>
          if is_header item || (Str.len (text item) <? 80)
          then group_loop content' sections matched_section
          else if Str.len (text item) <? 20
               then group_loop content' sections current_section
               else group_loop content' (append_to sections current_section (text item))
                      current_section
      | None =>
          if Str.len (text item) <? 20
          then group_loop content' sections current_section
          else group_loop content' (append_to sections current_section (text item))
                 current_section
      end
  end.

Definition nonempty (v : list string) : bool :=
  match v with [] => false | _ => true end.

Definition _group_into_sections (structured_content : list Item)
    : gmap string string :=
  let sections := group_loop structured_content ∅ "introduction" in
  Str.join " " <$> filter (fun kv => nonempty kv.2 = true) sections.

(** The PDF as PyMuPDF presents it. *)
Record Span := { span_text : string; span_size : Q; span_font : string }.

Record Block := {
  block_type : nat;                      (* 0 for a text block *)
  bbox : Q * Q;                          (* (x0, y0), the top-left corner *)
  lines : option (list (list Span))      (* absent for image blocks *)
}.

Definition Page := list Block.

(** [np.median] *)
Definition median (l : list Q) : Q :=
  let sorted := sorted_by Qle_bool l in
  let n := List.length sorted in
  if Nat.even n
  then (nth (n / 2 - 1) sorted 0%Q + nth (n / 2) sorted 0%Q) / 2
  else nth (n / 2) sorted 0%Q.

Definition font_sizes_of (doc : list Page) : list Q :=
  flat_map (fun page =>
    flat_map (fun block =>
      match lines block with
      | Some ls => flat_map (fun line => map span_size line) ls
      | None => []
      end) page) doc.

Section Extractor.
(** [self.min_header_font_size]; [self.max_header_length] is 100. *)
Variable min_header_font_size : Q.
Definition max_header_length : nat := 100.

Definition _extract_block_text (block : Block) : option Item :=
  match lines block with
  | None => None
  | Some ls =>
      let text_parts :=
        map (fun line => Str.strip (String.concat "" (map span_text line))) ls in
      let max_font_size :=
        foldl (fun m sp => Qmax m (span_size sp)) 0%Q (List.concat ls) in
      let is_bold :=
        existsb (fun sp => Str.contains (Str.lower (span_font sp)) "bold") (List.concat ls) in
      let full_text := Str.strip (Str.join " " text_parts) in
      match full_text with
      | EmptyString => None
      | _ =>
          let is_header :=
            Qle_bool min_header_font_size max_font_size
            && (Str.len full_text <? max_header_length)
            && (is_bold || Qlt_bool (min_header_font_size + 1) max_font_size) in
          Some {| text := full_text; font_size := max_font_size;
                  is_bold := is_bold; is_header := is_header |}
      end
  end.
End Extractor.

Definition block_le (a b : Block) : bool :=
  Qlt_bool (snd (bbox a)) (snd (bbox b))
  || (Qeq_bool (snd (bbox a)) (snd (bbox b)) && Qle_bool (fst (bbox a)) (fst (bbox b))).

(** Both passes over an opened document.  Without any span the threshold
    keeps the value it had (9.0 after [__init__]); no block yields an item
    then. *)
Definition structured_content_of (doc : list Page) : list Item :=
  let font_sizes := font_sizes_of doc in
  let min_header_font_size :=
    match font_sizes with
    | [] => 9%Q
    | _ => (median font_sizes + (1 # 2))%Q
    end in
  flat_map (fun page =>
    omap (fun block =>
      if block_type block =? 0
      then _extract_block_text min_header_font_size block
      else None) (sorted_by block_le page)) doc.

(** [extract_sections_from_pdf]; [doc] is [None] when opening or reading
    the file raises, which the [except] clause turns into the empty map. *)
Definition extract_sections_from_pdf (doc : option (list Page)) : gmap string string :=
  match doc with
  | Some pages =>
      let sections := _group_into_sections (structured_content_of pages) in
      delete "references" sections
  | None => ∅
  end.

End AdvancedSectionExtractor.

(** ** EnhancedEntityExtractor *)

Module EnhancedEntityExtractor.
Import Re.

Definition cased (r : regex) : pattern := Pattern r false.
Definition icase (r : regex) : pattern := Pattern r true.   (* re.I *)

(** \b( w1 | w2 | ... )\b *)
Definition words (l : list string) : regex :=
  seqs [WordB; alts (map Lit l); WordB].

Definition digits09 : citem := CRange "0"%char "9"%char.
Definition dash_or_space : regex := Cls [CChar "-"%char; CSpace].

(** [_build_entity_patterns], in declaration order. *)
Definition entity_patterns : list (string * list pattern) :=
  [ ("models",
     [ (* \b(GPT-?[0-9.]+[a-z]*|GPT|ChatGPT)\b *)
       icase (seqs [WordB;
                    alts [seqs [Lit "GPT"; Opt (Lit "-");
                                Plus (Cls [digits09; CChar "."%char]);
                                Star (Cls [CRange "a"%char "z"%char])];
                          Lit "GPT"; Lit "ChatGPT"];
                    WordB]);
       cased (words ["BERT"; "RoBERTa"; "ALBERT"; "DistilBERT"; "DeBERTa"; "SciBERT"]);
       cased (words ["T5"; "FLAN-T5"; "mT5"]);
       (* \b(LLaMA|Llama-?[0-9]* )\b *)
       icase (seqs [WordB;
                    alts [Lit "LLaMA";
                          seqs [Lit "Llama"; Opt (Lit "-"); Star (Cls [digits09])]];
                    WordB]);
       cased (words ["Claude"; "Gemini"; "Mistral"; "Mixtral"]);
       (* \b(ResNet|VGG|Inception|DenseNet|EfficientNet)[-\s]?[0-9]* *)
       icase (seqs [WordB;
                    alts (map Lit ["ResNet"; "VGG"; "Inception"; "DenseNet"; "EfficientNet"]);
                    Opt dash_or_space; Star (Cls [digits09])]);
       (* \b(YOLO|YOLOv[0-9]+)\b *)
       icase (seqs [WordB;
                    alts [Lit "YOLO"; seqs [Lit "YOLOv"; Plus (Cls [digits09])]];
                    WordB]);
       icase (words ["ViT"; "Vision Transformer"; "Swin Transformer"]);
       (* \b(CLIP|DALL-?E|Stable Diffusion)\b *)
       icase (seqs [WordB;
                    alts [Lit "CLIP"; seqs [Lit "DALL"; Opt (Lit "-"); Lit "E"];
                          Lit "Stable Diffusion"];
                    WordB]);
       cased (words ["Transformer"; "LSTM"; "GRU"; "BiLSTM"]) ]);
    ("datasets",
     [ (* \b(ImageNet[-\s]?[0-9]*k?)\b *)
       icase (seqs [WordB; Lit "ImageNet"; Opt dash_or_space; Star (Cls [digits09]);
                    Opt (Lit "k"); WordB]);
       (* \b(COCO|MS-?COCO)\b *)
       icase (seqs [WordB;
                    alts [Lit "COCO"; seqs [Lit "MS"; Opt (Lit "-"); Lit "COCO"]];
                    WordB]);
       (* \b(CIFAR-?(?:10|100))\b *)
       icase (seqs [WordB; Lit "CIFAR"; Opt (Lit "-"); alts [Lit "10"; Lit "100"]; WordB]);
       (* \b(MNIST|Fashion-?MNIST)\b *)
       icase (seqs [WordB;
                    alts [Lit "MNIST"; seqs [Lit "Fashion"; Opt (Lit "-"); Lit "MNIST"]];
                    WordB]);
       (* \b(SQuAD[0-9.]* )\b *)
       icase (seqs [WordB; Lit "SQuAD"; Star (Cls [digits09; CChar "."%char]); WordB]);
       cased (words ["GLUE"; "SuperGLUE"]);
       (* \b(WikiText[-\s]?[0-9]* )\b *)
       icase (seqs [WordB; Lit "WikiText"; Opt dash_or_space; Star (Cls [digits09]); WordB]);
       icase (words ["Common Crawl"; "C4"]);
       icase (words ["ADE20K"; "Cityscapes"; "Pascal VOC"]) ]);
    ("metrics",
     [ (* \b(accuracy|precision|recall|F1[-\s]?score)\b *)
       icase (seqs [WordB;
                    alts [Lit "accuracy"; Lit "precision"; Lit "recall";
                          seqs [Lit "F1"; Opt dash_or_space; Lit "score"]];
                    WordB]);
       (* \b(BLEU[-\s]?[0-9]*|ROUGE[-\s]?[LN0-9]* )\b *)
       icase (seqs [WordB;
                    alts [seqs [Lit "BLEU"; Opt dash_or_space; Star (Cls [digits09])];
                          seqs [Lit "ROUGE"; Opt dash_or_space;
                                Star (Cls [CChar "L"%char; CChar "N"%char; digits09])]];
                    WordB]);
       cased (words ["mAP"; "IoU"; "mIoU"]);
       icase (words ["perplexity"; "cross-entropy"]);
       icase (words ["AUC"; "ROC"; "AUC-ROC"]);
       cased (words ["METEOR"; "CIDEr"; "SPICE"]) ]);
    ("frameworks",
     [ icase (words ["PyTorch"; "TensorFlow"; "JAX"; "Keras"]);
       (* \b(Hugging ?Face|HuggingFace)\b *)
       icase (seqs [WordB;
                    alts [seqs [Lit "Hugging"; Opt (Lit " "); Lit "Face"]; Lit "HuggingFace"];
                    WordB]);
       icase (words ["scikit-learn"; "sklearn"]) ]) ].

Definition has_alpha (s : string) : bool :=
  existsb Char.isalpha (list_ascii_of_string s).

(** [sum(1 for c in entity if c in string.punctuation)] *)
Definition special_count (s : string) : nat :=
  List.length (List.filter Char.is_punctuation (list_ascii_of_string s)).

(** [special_count / len(entity)] as an exact fraction.  The float quotient
    compares with the float 0.3 as the fraction does with 3/10: for lengths
    up to 50 the quotient is either 3/10 itself, which rounds to the very
    float the literal denotes, or at least 1/500 away from it. *)
Definition density (s : string) : Q :=
  Z.of_nat (special_count s) # Pos.of_nat (Str.len s).

Definition _validate_entity (entity entity_type context : string) : bool :=
  if (Str.len entity <? 2) || (50 <? Str.len entity) then false
  else if negb (has_alpha entity) then false
  else if Qlt_bool (3 # 10) (density entity) then false
  else true.

(** [entities[entity_type].add(entity)] on a [defaultdict(set)]. *)
Definition add_entity (entities : gmap string (gset string))
    (entity_type entity : string) : gmap string (gset string) :=
  <[entity_type := default ∅ (entities !! entity_type) ∪ {[entity]}]> entities.

(** The three nested loops of the pattern pass. *)
Definition scan_matches (text entity_type : string)
    (entities : gmap string (gset string)) (matches : list string)
    : gmap string (gset string) :=
  foldl (fun ents m =>
           let entity := Str.strip m in
           if _validate_entity entity entity_type text
           then add_entity ents entity_type entity
           else ents) entities matches.

Definition scan_patterns (text : string)
    (table : list (string * list pattern)) : gmap string (gset string) :=
  foldl (fun ents '(entity_type, patterns) =>
           foldl (fun ents p => scan_matches text entity_type ents (finditer p text))
                 ents patterns) ∅ table.

(** [sorted(entity_list, key=lambda e: -entity_counts[e])[:15]];
    [list(entity_set)] enumerates the set in an order of its own, as
    [elements] does. *)
Definition rank_entities (text : string) (entity_set : gset string) : list string :=
  let entity_list := elements entity_set in
  let more_frequent e1 e2 := Str.count text e2 <=? Str.count text e1 in
  take 15 (sorted_by more_frequent entity_list).

Definition canonical_keys : list string :=
  ["models"; "datasets"; "metrics"; "frameworks"; "techniques"].

Definition ensure_keys (final_entities : gmap string (list string))
    : gmap string (list string) :=
  foldl (fun fe key =>
           match fe !! key with
           | None => <[key := []]> fe
           | Some _ => fe
           end) final_entities canonical_keys.

Definition extract_entities (text : string) : gmap string (list string) :=
  let entities := scan_patterns text entity_patterns in
  let final_entities := rank_entities text <$> entities in
  ensure_keys final_entities.

End EnhancedEntityExtractor.

(** ** FlowchartGenerator *)

Module FlowchartGenerator.

Definition PROCESS_INDICATORS : list string :=
  ["first"; "second"; "third"; "then"; "next"; "finally"; "after";
   "step"; "stage"; "phase"; "process"; "procedure"].

Definition PROCESS_VERBS : list string :=
  ["train"; "test"; "evaluate"; "collect"; "preprocess"; "extract";
   "compute"; "calculate"; "apply"; "use"; "implement"; "generate";
   "propose"; "develop"; "design"; "construct"; "build"; "optimize"].

(** The body of the loop of [_extract_steps] for one sentence: the step and
    its key when the sentence qualifies. *)
Definition candidate_step (sent : string) : option (string * string) :=
  let sent_clean := Str.strip sent in
  if negb ((30 <? Str.len sent_clean) && (Str.len sent_clean <? 200)) then None
  else
    let sent_lower := Str.lower sent_clean in
    let has_indicator := existsb (Str.contains sent_lower) PROCESS_INDICATORS in
    let has_verb := existsb (Str.contains sent_lower) PROCESS_VERBS in
    if has_indicator || has_verb then
      let step := Str.take 120 sent_clean in
      let step := if negb (Str.endswith step ".") then step +:+ "..." else step in
      let step_key := Str.lower (Str.take 40 step) in
      Some (step, step_key)
    else None.

(** The loop itself, carrying [steps] and [seen]; it stops at six steps. *)
Fixpoint steps_loop (sentences : list string) (steps : list string)
    (seen : gset string) : list string :=
  match sentences with
  | [] => steps
  | sent :: rest =>
      match candidate_step sent with
      | Some (step, step_key) =>
          if bool_decide (step_key ∉ seen) then
            let steps := steps ++ [step] in
            let seen := seen ∪ {[step_key]} in
            if 6 <=? List.length steps then steps
            else steps_loop rest steps seen
          else steps_loop rest steps seen
      | None => steps_loop rest steps seen
      end
  end.

Definition _extract_steps (sentences : list string) : list string :=
  steps_loop (take 20 sentences) [] ∅.

Definition nl : string := String Char.newline EmptyString.
Definition dq : string := String Char.quote EmptyString.

(** f'    {node_id}["{clean_step}"]\n' *)
Definition node_line (i : nat) (step : string) : string :=
  let node_id := "S" +:+ Str.of_nat (i + 1) in
  let clean_step :=
    Str.replace_char Char.newline " "%char (Str.replace_char Char.quote "'"%char step) in
  "    " +:+ node_id +:+ "[" +:+ dq +:+ clean_step +:+ dq +:+ "]" +:+ nl.

(** f"    S{i+1} --> S{i+2}\n" *)
Definition edge_line (i : nat) : string :=
  "    S" +:+ Str.of_nat (i + 1) +:+ " --> S" +:+ Str.of_nat (i + 2) +:+ nl.

Definition _build_mermaid (steps : list string) : string :=
  let mermaid := "graph TD" +:+ nl in
  let mermaid := mermaid +:+ "    Start([Start])" +:+ nl in
  let mermaid := mermaid +:+ String.concat "" (imap node_line steps) in
  let mermaid := mermaid +:+ "    End([End])" +:+ nl in
  let mermaid := mermaid +:+ "    Start --> S1" +:+ nl in
  let mermaid :=
    mermaid +:+ String.concat "" (map edge_line (seq 0 (List.length steps - 1))) in
  let mermaid := mermaid +:+ "    S" +:+ Str.of_nat (List.length steps) +:+ " --> End" +:+ nl in
  mermaid.

Section Tokenizer.
(** [nltk.sent_tokenize], where it answers; it is reached only by a text
    of at least 100 characters. *)
Variable sent_tokenize : string -> list string.

Definition generate_flowchart (methodology_text : string) : option string :=
  if Str.len methodology_text <? 100 then None
  else
    let sentences := sent_tokenize methodology_text in
    if List.length sentences <? 3 then None
    else
      let steps := _extract_steps sentences in
      if List.length steps <? 2 then None
      else Some (_build_mermaid steps).
End Tokenizer.

End FlowchartGenerator.

(** ** HierarchicalSummarizer *)

Module HierarchicalSummarizer.
Import Re.

(** The external capabilities.  An operation that can raise answers [None]
    when it does. *)
Class Capabilities := {
  Model : Type;
  Tokenizer : Type;
  KeywordModel : Type;
  (** [nltk.sent_tokenize], where it answers.  Its [LookupError] when the
      Punkt data is missing is not part of the model: what is stated of a
      call that reaches the tokenizer is stated of a call it answers. *)
  sent_tokenize : string -> list string;
  (** [AutoTokenizer.from_pretrained], [LEDTokenizer.from_pretrained] *)
  tokenizer_from_pretrained : string -> option Tokenizer;
  (** [from_pretrained(name, low_cpu_mem_usage=True, torch_dtype=...).to(device)] *)
  from_pretrained_optimized : string -> string -> option Model;
  (** [from_pretrained(name)] *)
  from_pretrained : string -> option Model;
  (** [model.to(device)] and [model.half()] *)
  to_device : Model -> string -> option Model;
  half : Model -> option Model;
  (** Tokenizing and encoding the sentences, averaging the hidden states and
      taking the cosine similarity of each sentence to the mean embedding:
      the score of the i-th sentence. *)
  similarity_scores : Tokenizer -> Model -> list string -> option (nat -> Q);
  (** Tokenizing the text (at most 4096 tokens), beam search up to
      [max_length] tokens, decoding. *)
  generate : Tokenizer -> Model -> string -> nat -> option string;
  (** [kw_model.extract_keywords(text, top_n=n, stop_words='english')] *)
  keybert_extract : KeywordModel -> string -> nat -> option (list (string * Q))
}.

Section Summarizer.
Context `{Capabilities}.

(** The fields of the object.  A field that holds [None] or is not bound
    is [None] here. *)
Record State := {
  device : string;
  sentence_encoder : option Model;
  tokenizer : option Tokenizer;
  summarizer : option Model;
  sum_tokenizer : option Tokenizer;
  kw_model : option KeywordModel
}.

(** [__init__]; [kw] is [KeyBERT()] when the package is importable. *)
Definition init (dev : string) (kw : option KeywordModel) : State :=
  {| device := dev; sentence_encoder := None; tokenizer := None;
     summarizer := None; sum_tokenizer := None; kw_model := kw |}.

Definition model_name : string := "allenai/led-base-16384".

Inductive Field :=
| F_sentence_encoder | F_tokenizer | F_summarizer | F_sum_tokenizer | F_kw_model.

(** What the log records, each entry with the state right after it. *)
Inductive Event :=
| Call (method : string)   (* a method of the object is entered *)
| Assign (f : Field)       (* a loaded object is bound to the field *)
| Release (f : Field)      (* the field is deleted or reset to None *)
| Run (f : Field).         (* the object held by the field is applied *)

Record Outcome (A : Type) := {
  log : list (Event * State);
  final : State;
  value : option A           (* None: an exception left the method *)
}.
Arguments log {A}. Arguments final {A}. Arguments value {A}.

Definition M (A : Type) : Type := State -> Outcome A.

Definition ret {A} (a : A) : M A :=
  fun s => {| log := []; final := s; value := Some a |}.

Definition raise {A} : M A :=
  fun s => {| log := []; final := s; value := None |}.

Definition bind {A B} (m : M A) (f : A -> M B) : M B :=
  fun s =>
    let r := m s in
    match value r with
    | Some a =>
        let r' := f a (final r) in
        {| log := log r ++ log r'; final := final r'; value := value r' |}
    | None => {| log := log r; final := final r; value := None |}
    end.

Definition get : M State :=
  fun s => {| log := []; final := s; value := Some s |}.

Definition event (e : Event) (update : State -> State) : M unit :=
  fun s => let s' := update s in
           {| log := [(e, s')]; final := s'; value := Some tt |}.

Definition lift {A} (o : option A) : M A :=
  match o with Some a => ret a | None => raise end.

(** try: m / except Exception: handler *)
Definition try_except {A} (m handler : M A) : M A :=
  fun s =>
    let r := m s in
    match value r with
    | Some _ => r
    | None =>
        let r' := handler (final r) in
        {| log := log r ++ log r'; final := final r'; value := value r' |}
    end.

Notation "x <- m ;; k" := (bind m (fun x => k))
  (at level 100, m at next level, right associativity).
Notation "m ;;; k" := (bind m (fun _ => k))
  (at level 100, right associativity).

Definition set_sentence_encoder (v : option Model) (s : State) : State :=
  {| device := device s; sentence_encoder := v; tokenizer := tokenizer s;
     summarizer := summarizer s; sum_tokenizer := sum_tokenizer s;
     kw_model := kw_model s |}.
Definition set_tokenizer (v : option Tokenizer) (s : State) : State :=
  {| device := device s; sentence_encoder := sentence_encoder s; tokenizer := v;
     summarizer := summarizer s; sum_tokenizer := sum_tokenizer s;
     kw_model := kw_model s |}.
Definition set_summarizer (v : option Model) (s : State) : State :=
  {| device := device s; sentence_encoder := sentence_encoder s;
     tokenizer := tokenizer s; summarizer := v; sum_tokenizer := sum_tokenizer s;
     kw_model := kw_model s |}.
Definition set_sum_tokenizer (v : option Tokenizer) (s : State) : State :=
  {| device := device s; sentence_encoder := sentence_encoder s;
     tokenizer := tokenizer s; summarizer := summarizer s; sum_tokenizer := v;
     kw_model := kw_model s |}.

(** [del self.<field>]: an AttributeError when the field is not bound. *)
Definition del {A} (f : Field) (read : State -> option A)
    (clear : State -> State) : M unit :=
  s <- get ;;
  match read s with
  | Some _ => event (Release f) clear
  | None => raise
  end.

Definition encoder_name : string := "sentence-transformers/all-MiniLM-L6-v2".

(** The body shared by the two loaders: the tokenizer, then the model with
    the memory options and, should that raise, the plain load moved to the
    device and halved on a GPU. *)
Definition load_pair (name : string) (f_tok f_model : Field)
    (put_tok : option Tokenizer -> State -> State)
    (put_model : option Model -> State -> State) : M unit :=
  s <- get ;;
  tok <- lift (tokenizer_from_pretrained name) ;;
  event (Assign f_tok) (put_tok (Some tok)) ;;;
  try_except
    (m <- lift (from_pretrained_optimized name (device s)) ;;
     event (Assign f_model) (put_model (Some m)))
    (m <- lift (from_pretrained name) ;;
     event (Assign f_model) (put_model (Some m)) ;;;
     m <- lift (to_device m (device s)) ;;
     event (Assign f_model) (put_model (Some m)) ;;;
     if String.eqb (device s) "cuda"
     then m <- lift (half m) ;; event (Assign f_model) (put_model (Some m))
     else ret tt).

Definition _load_sentence_encoder : M unit :=
  s <- get ;;
  match sentence_encoder s with
  | None => load_pair encoder_name F_tokenizer F_sentence_encoder
              set_tokenizer set_sentence_encoder
  | Some _ => ret tt
  end.

Definition _unload_sentence_encoder : M unit :=
  s <- get ;;
  match sentence_encoder s with
  | Some _ =>
      event (Release F_sentence_encoder) (set_sentence_encoder None) ;;;
      del F_tokenizer tokenizer (set_tokenizer None)
  | None => ret tt
  end.

Definition _load_summarizer : M unit :=
  s <- get ;;
  match summarizer s with
  | None => load_pair model_name F_sum_tokenizer F_summarizer
              set_sum_tokenizer set_summarizer
  | Some _ => ret tt
  end.

Definition _unload_summarizer : M unit :=
  s <- get ;;
  match summarizer s with
  | Some _ =>
      event (Release F_summarizer) (set_summarizer None) ;;;
      del F_sum_tokenizer sum_tokenizer (set_sum_tokenizer None)
  | None => ret tt
  end.

(** r'\[\d+(?:,\s*\d+)*\]' and r'\(\d+(?:,\s*\d+)*\)' *)
Definition citation (opening closing : string) : pattern :=
  Pattern (seqs [Lit opening; Plus digit;
                 Star (seqs [Lit ","; Star space; Plus digit]);
                 Lit closing]) false.

(** r'http[s]?://\S+' *)
Definition url : pattern :=
  Pattern (seqs [Lit "http"; Opt (Cls [CChar "s"%char]); Lit "://"; Plus nonspace]) false.

(** r'\S+@\S+' *)
Definition email : pattern :=
  Pattern (seqs [Plus nonspace; Lit "@"; Plus nonspace]) false.

(** r'\b(fig|figure|table|eq)\.?\s*\d+' with re.I *)
Definition figure_ref : pattern :=
  Pattern (seqs [WordB; alts [Lit "fig"; Lit "figure"; Lit "table"; Lit "eq"];
                 Opt (Lit "."); Star space; Plus digit]) true.

(** r'\s+' *)
Definition whitespace : pattern := Pattern (Plus space) false.

Definition preprocess_text (text : string) : string :=
  let text := sub (citation "[" "]") "" text in
  let text := sub (citation "(" ")") "" text in
  let text := sub url "" text in
  let text := sub email "" text in
  let text := sub figure_ref "" text in
  let text := sub whitespace " " text in
  Str.strip text.

(** [int(x)]: truncation towards zero. *)
Definition int_of_Q (x : Q) : Z := Z.quot (Qnum x) (Zpos (Qden x)).

Definition is_quality (s : string) : bool :=
  (30 <? Str.len s) && (Str.len s <? 500) && (5 <=? List.length (Str.split s)).

(** [np.argsort(scores)]: the indices by ascending score. *)
Definition argsort (n : nat) (score : nat -> Q) : list nat :=
  sorted_by (fun i j => Qle_bool (score i) (score j)) (seq 0 n).

(** The selection: the [n_select] best-scored sentences, in their order in
    [quality_sents].  [ratio] is the exact value of the literal; the float
    product [len * 0.4] truncates like the exact one, the float 0.4 lying
    above 2/5 by less than 1e-16. *)
Definition select_top (quality_sents : list string) (score : nat -> Q) (ratio : Q)
    : list string :=
  let n_select :=
    Z.max 3 (int_of_Q (inject_Z (Z.of_nat (List.length quality_sents)) * ratio)) in
  let top_indices :=
    slice_last (Z.to_nat n_select) (argsort (List.length quality_sents) score) in
  map (fun i => nth i quality_sents "") (sorted_by Nat.leb top_indices).

Definition extractive_summary (text : string) (ratio : Q) : M string :=
  event (Call "extractive_summary") id ;;;
  let sentences := sent_tokenize text in
  if List.length sentences <? 3 then ret text
  else
    let quality_sents := List.filter is_quality sentences in
    match quality_sents with
    | [] => ret text
    | _ =>
        _load_sentence_encoder ;;;
        s <- get ;;
        tok <- lift (tokenizer s) ;;
        enc <- lift (sentence_encoder s) ;;
        event (Run F_sentence_encoder) id ;;;
        score <- lift (similarity_scores tok enc quality_sents) ;;
        ret (Str.join " " (select_top quality_sents score ratio))
    end.

(** [s.split('.')] *)
Fixpoint split_dot_aux (s cur : string) : list string :=
  match s with
  | EmptyString => [Str.rev cur]
  | String c s' =>
      if Char.eqb c "."%char then Str.rev cur :: split_dot_aux s' EmptyString
      else split_dot_aux s' (String c cur)
  end.

Definition split_dot (s : string) : list string := split_dot_aux s EmptyString.

Definition is_empty (s : string) : bool :=
  match s with EmptyString => true | _ => false end.

Definition _clean_summary (summary : string) : string :=
  let sentences := split_dot summary in
  let sentences :=
    if (1 <? List.length sentences)
       && (Str.len (Str.strip (List.last sentences "")) <? 10)
    then removelast sentences else sentences in
  let summary :=
    Str.join ". " (map Str.strip
                     (List.filter (fun s => negb (is_empty (Str.strip s))) sentences)) in
  if negb (is_empty summary) && negb (Str.endswith summary ".")
  then summary +:+ "." else summary.

Definition abstractive_summary (text : string) (max_length : nat) : M string :=
  event (Call "abstractive_summary") id ;;;
  if is_empty (Str.strip text) then ret ""
  else
    _load_summarizer ;;;
    s <- get ;;
    tok <- lift (sum_tokenizer s) ;;
    model <- lift (summarizer s) ;;
    event (Run F_summarizer) id ;;;
    summary <- lift (generate tok model text max_length) ;;
    ret (_clean_summary summary).

Definition extract_keywords (text : string) (n : nat) : M (list string) :=
  event (Call "extract_keywords") id ;;;
  s <- get ;;
  match kw_model s with
  | None => ret []
  | Some kw =>
      if is_empty text then ret []
      else
        event (Run F_kw_model) id ;;;
        match keybert_extract kw text n with
        | Some keywords => ret (map fst keywords)
        | None => ret []
        end
  end.

Definition summarize_section (section_text section_name : string)
    : M (string * list string) :=
  let clean_text := preprocess_text section_text in
  if List.length (Str.split clean_text) <? 50 then ret (clean_text, [])
  else
    extractive <- extractive_summary clean_text (2 # 5) ;;
    _unload_sentence_encoder ;;;
    let max_len :=
      if String.eqb section_name "introduction" || String.eqb section_name "conclusion"
      then 200 else 150 in
    abstractive <- abstractive_summary extractive max_len ;;
    _unload_summarizer ;;;
    keywords <- extract_keywords abstractive 5 ;;
    ret (abstractive, keywords).

(** The loop of [summarize_paper] over the sections found, in their order:
    empty sections and the references are skipped, and an exception of
    [summarize_section] leaves the loop. *)
Fixpoint summarize_sections (sections : list (string * string))
    : M (list (string * (string * list string))) :=
  match sections with
  | [] => ret []
  | (section_name, section_text) :: rest =>
      if negb (is_empty section_text) && negb (String.eqb section_name "references")
      then
        r <- summarize_section section_text section_name ;;
        rs <- summarize_sections rest ;;
        ret ((section_name, r) :: rs)
      else summarize_sections rest
  end.

End Summarizer.

Arguments log {_ _}.
Arguments final {_ _}.
Arguments value {_ _}.

End HierarchicalSummarizer.

(** ** Stand-ins for the external capabilities, to run the model on
       concrete inputs *)

Module Reference.
Import HierarchicalSummarizer.

(** Sentence splitting for plain prose: a sentence ends at a full stop,
    question mark or exclamation mark that is followed by whitespace or ends
    the text.  On text without abbreviations, initials, numbers or quotes
    this is where the Punkt tokenizer splits too. *)
Definition is_terminator (c : ascii) : bool :=
  Char.eqb c "."%char || Char.eqb c "?"%char || Char.eqb c "!"%char.

Fixpoint split_sentences (s cur : string) : list string :=
  match s with
  | EmptyString =>
      match Str.strip (Str.rev cur) with
      | EmptyString => []
      | sent => [sent]
      end
  | String c s' =>
      if is_terminator c &&
         match s' with
         | EmptyString => true
         | String d _ => Char.isspace d
         end
      then Str.strip (Str.rev (String c cur)) :: split_sentences s' EmptyString
      else split_sentences s' (String c cur)
  end.

Definition sent_tokenize (text : string) : list string :=
  split_sentences text EmptyString.

(** Capabilities that always load, score a sentence by its length, echo
    the text as its summary and have no keywords to offer. *)
#[export] Instance capabilities : Capabilities := {|
  Model := string;
  Tokenizer := string;
  KeywordModel := unit;
  HierarchicalSummarizer.sent_tokenize := sent_tokenize;
  tokenizer_from_pretrained name := Some name;
  from_pretrained_optimized name dev := Some name;
  from_pretrained name := Some name;
  to_device m dev := Some m;
  half m := Some m;
  similarity_scores tok enc sents :=
    Some (fun i => inject_Z (Z.of_nat (Str.len (nth i sents ""))));
  generate tok model text max_length := Some text;
  keybert_extract kw text n := Some []
|}.


End Reference.

(** ** Vocabulary of the statements *)

Module Spec.

(** The section names declared by the keyword table. *)
Definition section_names : list string :=
  map fst AdvancedSectionExtractor.SECTION_KEYWORDS.

Definition known_keys (sections : gmap string (list string)) : Prop :=
  forall k, is_Some (sections !! k) -> k ∈ section_names.

(** The labels a section map may carry. *)
Definition vocabulary : gset string :=
  {[ "abstract"; "introduction"; "related_work"; "methodology";
     "experiments"; "results"; "discussion"; "conclusion" ]}.

(** A flowchart as a graph: terminal nodes, step nodes with their label, and
    directed edges between node identifiers; [render] is its Mermaid text,
    nodes first, then edges. *)
Inductive Node :=
| Terminal (id : string)
| Step (id label : string).

Record Graph := { nodes : list Node; edges : list (string * string) }.

Definition render_node (n : Node) : string :=
  match n with
  | Terminal id =>
      "    " +:+ id +:+ "([" +:+ id +:+ "])" +:+ FlowchartGenerator.nl
  | Step id label =>
      "    " +:+ id +:+ "[" +:+ FlowchartGenerator.dq +:+ label
      +:+ FlowchartGenerator.dq +:+ "]" +:+ FlowchartGenerator.nl
  end.

Definition render_edge (e : string * string) : string :=
  "    " +:+ e.1 +:+ " --> " +:+ e.2 +:+ FlowchartGenerator.nl.

Definition render (g : Graph) : string :=
  "graph TD" +:+ FlowchartGenerator.nl
  +:+ String.concat "" (map render_node (nodes g))
  +:+ String.concat "" (map render_edge (edges g)).

(** A step as it is written into a node: double quotes become single
    quotes, line feeds become spaces. *)
Definition sanitize (step : string) : string :=
  Str.replace_char Char.newline " "%char (Str.replace_char Char.quote "'"%char step).

Definition two_step_graph (a b : string) : Graph :=
  {| nodes := [Terminal "Start"; Step "S1" (sanitize a); Step "S2" (sanitize b);
               Terminal "End"];
     edges := [("Start", "S1"); ("S1", "S2"); ("S2", "End")] |}.

(** What the pattern pass maintains: the keys are entity types of the
    table, and every member of a set passed the validator. *)
Definition scan_inv (text : string) (keys : list string)
    (ents : gmap string (gset string)) : Prop :=
  (forall k, is_Some (ents !! k) -> k ∈ keys)
  /\ (forall k X e, ents !! k = Some X -> e ∈ X ->
        EnhancedEntityExtractor._validate_entity e k text = true).

Section Residency.
Import HierarchicalSummarizer.
Context `{Capabilities}.

(** Both heavy models are loaded. *)
Definition both_resident (s : State) : Prop :=
  is_Some (sentence_encoder s) /\ is_Some (summarizer s).

(** What every log entry of a call must satisfy: the two models are not
    both loaded; the summarizer is bound only while no encoder is loaded;
    keyword extraction is entered only once the summarizer is gone. *)
Definition residency_discipline (entry : Event * State) : Prop :=
  ~ both_resident entry.2
  /\ (entry.1 = Assign F_summarizer -> sentence_encoder entry.2 = None)
  /\ (entry.1 = Call "extract_keywords" -> summarizer entry.2 = None).

(** [m], started in a state satisfying [P], logs only entries satisfying
    [I]; it ends in a state satisfying [Qn a] when it returns [a] and
    [Qe] when it raises. *)
Definition triple {A} (P : State -> Prop) (m : M A) (I : Event * State -> Prop)
    (Qn : A -> State -> Prop) (Qe : State -> Prop) : Prop :=
  forall s, P s ->
    Forall I (log (m s))
    /\ match value (m s) with
       | Some a => Qn a (final (m s))
       | None => Qe (final (m s))
       end.

(** [m] keeps the state property [J] at every step and logs only events
    satisfying [E]. *)
Definition preserves {A} (J : State -> Prop) (E : Event -> Prop) (m : M A) : Prop :=
  triple J m (fun entry => E entry.1 /\ J entry.2) (fun _ => J) J.

(** [m], started in [s], returns [a] and ends in [s']. *)
Definition returns {A} (m : M A) (s : State) (a : A) (s' : State) : Prop :=
  value (m s) = Some a /\ final (m s) = s'.

Definition both_residentb (s : State) : bool :=
  match sentence_encoder s, summarizer s with
  | Some _, Some _ => true
  | _, _ => false
  end.

Definition no_summarizer (s : State) : Prop := summarizer s = None.
Definition no_encoder (s : State) : Prop := sentence_encoder s = None.
Definition no_model (s : State) : Prop := no_encoder s /\ no_summarizer s.

Definition extractive_event (e : Event) : Prop :=
  e <> Assign F_summarizer /\ e <> Call "extract_keywords".
Definition abstractive_event (e : Event) : Prop :=
  e <> Call "extract_keywords".
End Residency.

(** The number of sentences the extractive stage would keep if the share
    were rounded up: min(n, max(3, ceil(0.4 n))). *)
Definition ceil_selection_count (n : nat) : nat :=
  Nat.min n (Nat.max 3 (Z.to_nat (Qceiling (inject_Z (Z.of_nat n) * (2 # 5))))).

End Spec.

(** ** Sample inputs *)

Module Samples.

(** Three sentences, two of which describe a step. *)
Definition two_step_text : string :=
  "We first collect data from the public web sources. "
  +:+ "The weather was pleasant during the whole campaign. "
  +:+ "Finally we evaluate results on the held-out test split.".

(** A first sentence of 158 characters. *)
Definition long_step_text : string :=
  "We first collect a very large corpus of scientific documents from many "
  +:+ "public repositories and then carefully filter it to remove duplicated "
  +:+ "or noisy entries. "
  +:+ "We then train the model on the cleaned corpus. "
  +:+ "Finally we evaluate results on the held-out test split.".

(** Eight sentences that pass the quality filter. *)
Definition eight_sentences : string :=
  "We first collect data from the public web sources. "
  +:+ "We then preprocess it with a standard tokenizer pipeline. "
  +:+ "Next we train the model on the cleaned corpus. "
  +:+ "The weather was pleasant during the whole campaign. "
  +:+ "Every batch holds sixty four examples of equal length. "
  +:+ "The learning rate decays linearly over the last epochs. "
  +:+ "We report the mean of five runs with different seeds. "
  +:+ "Finally we evaluate results on the held-out test split.".

(** A body that cleans to forty words. *)
Definition forty_words : string :=
  "We study how a small encoder summarizes long research papers [3] and we "
  +:+ "show that the first stage keeps sentences close to the mean "
  +:+ "embedding while the second stage rewrites them into a short "
  +:+ "abstract that reads well and stays faithful.".

End Samples.

(** ** The section map as a dict: its items in insertion order *)

Module SectionOrder.
Import AdvancedSectionExtractor.

(** [sections[key].append(t)] on a [defaultdict(list)] kept as the list of
    its items: a key that is new goes last. *)
Fixpoint append_item (items : list (string * list string)) (key t : string)
    : list (string * list string) :=
  match items with
  | [] => [(key, [t])]
  | (k, v) :: items' =>
      if String.eqb k key then (k, v ++ [t]) :: items'
      else (k, v) :: append_item items' key t
  end.

(** The loop of [_group_into_sections] on the items. *)
Fixpoint group_loop_items (content : list Item)
    (items : list (string * list string)) (current_section : string)
    : list (string * list string) :=
  match content with
  | [] => items
  | item :: content' =>
      let text_lower := Str.strip (Str.lower (text item)) in
      match _match_section text_lower with
      | Some matched_section =>
          if is_header item || (Str.len (text item) <? 80)
          then group_loop_items content' items matched_section
          else if Str.len (text item) <? 20
               then group_loop_items content' items current_section
               else group_loop_items content'
                      (append_item items current_section (text item)) current_section
      | None =>
          if Str.len (text item) <? 20
          then group_loop_items content' items current_section
          else group_loop_items content'
                 (append_item items current_section (text item)) current_section
      end
  end.

(** The items of the dict that [_group_into_sections] returns. *)
Definition _group_into_sections_items (structured_content : list Item)
    : list (string * string) :=
  map (fun kv => (kv.1, Str.join " " kv.2))
    (List.filter (fun kv => nonempty kv.2)
       (group_loop_items structured_content [] "introduction")).

(** The items of the dict that [extract_sections_from_pdf] returns. *)
Definition extract_sections_items (doc : option (list Page)) : list (string * string) :=
  match doc with
  | Some pages =>
      List.filter (fun kv => negb (String.eqb kv.1 "references"))
        (_group_into_sections_items (structured_content_of pages))
  | None => []
  end.

(** [d[key]] on the items, when the key is there. *)
Fixpoint assoc {V} (key : string) (items : list (string * V)) : option V :=
  match items with
  | [] => None
  | (k, v) :: items' => if String.eqb k key then Some v else assoc key items'
  end.

End SectionOrder.

(** ** ImprovedPDFExtractor *)

Module ImprovedPDFExtractor.

(** A block of [page.get_text("blocks")]: the corner (x0, y0) and the text,
    field 4 of the tuple, absent when the tuple has fewer than five
    fields. *)
Record RawBlock := { raw_x0 : Q; raw_y0 : Q; raw_text : option string }.

Definition raw_block_le (a b : RawBlock) : bool :=
  Qlt_bool (raw_y0 a) (raw_y0 b)
  || (Qeq_bool (raw_y0 a) (raw_y0 b) && Qle_bool (raw_x0 a) (raw_x0 b)).

(** What a block adds to the text of its page. *)
Definition block_line (block : RawBlock) : string :=
  match raw_text block with
  | Some t =>
      let block_text := Str.strip t in
      if 20 <? Str.len block_text
      then block_text +:+ FlowchartGenerator.nl
      else ""
  | None => ""
  end.

(** The inner loop: the text of a page. *)
Definition page_text (blocks : list RawBlock) : string :=
  foldl (fun page_text block => page_text +:+ block_line block) ""
    (sorted_by raw_block_le blocks).

Definition not_empty (s : string) : bool :=
  match s with EmptyString => false | _ => true end.

(** [extract_text_from_pdf]; [doc] is [None] when the file cannot be read,
    which the [except] clause turns into the empty text. *)
Definition extract_text_from_pdf (doc : option (list (list RawBlock))) : string :=
  match doc with
  | Some pages =>
      let text_parts := List.filter not_empty (map page_text pages) in
      Str.join FlowchartGenerator.nl text_parts
  | None => ""
  end.

End ImprovedPDFExtractor.

(** ** EnhancedResearchPaperSummarizer *)

Module EnhancedResearchPaperSummarizer.
Import HierarchicalSummarizer.

(** The file as its two readers present it. *)
Record Pdf := {
  layout : option (list AdvancedSectionExtractor.Page);
  blocks : option (list (list ImprovedPDFExtractor.RawBlock))
}.

(** The dict that [summarize_paper] returns; a dict field is the list of
    its items. *)
Record PaperSummary := {
  overall_summary : string;
  section_summaries : list (string * string);
  section_keywords : list (string * list string);
  overall_keywords : list string;
  entities : gmap string (list string);
  methodology_flowchart : option string;
  sections_found : list string;
  num_words_original : nat;
  num_words_summary : nat
}.

(** The sections to work on: those of the layout analysis or, when it finds
    none, the plain text as the introduction. *)
Definition sections_of (pdf : Pdf) : list (string * string) :=
  match SectionOrder.extract_sections_items (layout pdf) with
  | [] => [("introduction", ImprovedPDFExtractor.extract_text_from_pdf (blocks pdf))]
  | sections => sections
  end.

Section Paper.
Context `{Capabilities}.

Definition summarize_paper (pdf : Pdf) : M PaperSummary :=
  let sections := sections_of pdf in
  let full_text := Str.join " " (map snd sections) in
  let entities := EnhancedEntityExtractor.extract_entities full_text in
  bind (summarize_sections sections) (fun results =>
  let section_summaries := map (fun r => (r.1, r.2.1)) results in
  let section_keywords := map (fun r => (r.1, r.2.2)) results in
  let combined_text := Str.join " " (map snd section_summaries) in
  bind (extract_keywords combined_text 10) (fun overall_keywords =>
  let flowchart :=
    match SectionOrder.assoc "methodology" sections with
    | Some methodology =>
        FlowchartGenerator.generate_flowchart sent_tokenize methodology
    | None => None
    end in
  ret {| overall_summary := combined_text;
         section_summaries := section_summaries;
         section_keywords := section_keywords;
         overall_keywords := overall_keywords;
         entities := entities;
         methodology_flowchart := flowchart;
         sections_found := map fst sections;
         num_words_original := List.length (Str.split full_text);
         num_words_summary := List.length (Str.split combined_text) |})).

End Paper.

End EnhancedResearchPaperSummarizer.

(** ** Vocabulary of the further statements *)

Module Laws.

(** The key under which [_extract_steps] remembers a step. *)
Definition step_key (step : string) : string := Str.lower (Str.take 40 step).

(** The step made of a stripped sentence. *)
Definition step_of (sent_clean : string) : string :=
  let step := Str.take 120 sent_clean in
  if Str.endswith step "." then step else step +:+ "...".

(** A sentence of [_extract_steps] that qualifies as a step. *)
Definition qualifies (sent : string) : Prop :=
  let sent_clean := Str.strip sent in
  30 < Str.len sent_clean < 200
  /\ (existsb (Str.contains (Str.lower sent_clean)) FlowchartGenerator.PROCESS_INDICATORS
       || existsb (Str.contains (Str.lower sent_clean)) FlowchartGenerator.PROCESS_VERBS) = true.

Definition step_id (i : nat) : string := "S" +:+ Str.of_nat i.

(** The chain Start -> S1 -> ... -> Sn -> End over the steps. *)
Definition linear_graph (steps : list string) : Spec.Graph :=
  {| Spec.nodes :=
       Spec.Terminal "Start"
       :: imap (fun i step => Spec.Step (step_id (i + 1)) (Spec.sanitize step)) steps
       ++ [Spec.Terminal "End"];
     Spec.edges :=
       ("Start", "S1")
       :: map (fun i => (step_id (i + 1), step_id (i + 2)))
            (seq 0 (List.length steps - 1))
       ++ [(step_id (List.length steps), "End")] |}.

(** [e] occurs in [s]. *)
Definition occurs_in (e s : string) : Prop :=
  exists pre post, s = pre +:+ e +:+ post.

(** [s'] is what is left of [s] after some prefix. *)
Definition suffix_of (s' s : string) : Prop := exists pre, s = pre +:+ s'.

(** [s] neither starts nor ends with whitespace. *)
Definition trimmed (s : string) : Prop :=
  (forall c s', s = String c s' -> Char.isspace c = false)
  /\ (forall c s', Str.rev s = String c s' -> Char.isspace c = false).

(** A block that starts a section: it matches a section and is a header or
    shorter than 80 characters. *)
Definition starts_section (item : AdvancedSectionExtractor.Item) (name : string) : Prop :=
  AdvancedSectionExtractor._match_section
    (Str.strip (Str.lower (AdvancedSectionExtractor.text item))) = Some name
  /\ (AdvancedSectionExtractor.is_header item = true
      \/ Str.len (AdvancedSectionExtractor.text item) < 80).

(** The only whitespace of [s] is single spaces: a whitespace character is
    a space and is not followed by another whitespace character. *)
Fixpoint single_spaced (s : string) : Prop :=
  match s with
  | EmptyString => True
  | String c s' =>
      (Char.isspace c = true ->
       c = " "%char
       /\ match s' with
          | String d _ => Char.isspace d = false
          | EmptyString => True
          end)
      /\ single_spaced s'
  end.

(** The iteration of a starred pattern, as [Re.rmatch] runs it. *)
Section StarLoop.
Context {A : Type} (ci : bool) (r1 : Re.regex) (k : option ascii -> string -> option A).

Fixpoint star_loop (fuel : nat) (prev : option ascii) (s : string) : option A :=
  match fuel with
  | 0 => k prev s
  | S fuel' =>
      match Re.rmatch ci r1 prev s
              (fun prev' s' =>
                 if Str.len s' <? Str.len s then star_loop fuel' prev' s'
                 else None) with
      | Some x => Some x
      | None => k prev s
      end
  end.
End StarLoop.

(** A block whose text [extract_text_from_pdf] keeps: it has a text field
    that is longer than 20 characters once stripped. *)
Definition kept (block : ImprovedPDFExtractor.RawBlock) : Prop :=
  exists t, ImprovedPDFExtractor.raw_text block = Some t /\ 20 < Str.len (Str.strip t).

Definition starts_with_space (s : string) : Prop :=
  exists c s', s = String c s' /\ Char.isspace c = true.

Definition no_trailing_space (s : string) : Prop :=
  forall c s', Str.rev s = String c s' -> Char.isspace c = false.

End Laws.

(** ** Sample files *)

Module Cases.
Import AdvancedSectionExtractor.

Definition paragraph (s : string) (y : Q) : Block :=
  {| block_type := 0; bbox := (72, y)%Q;
     lines := Some [[ {| span_text := s; span_size := 10; span_font := "Times-Roman" |} ]] |}.

Definition heading (s : string) (y : Q) : Block :=
  {| block_type := 0; bbox := (72, y)%Q;
     lines := Some [[ {| span_text := s; span_size := 14; span_font := "Times-Bold" |} ]] |}.

Definition abstract_text : string :=
  "We present BERT-large and evaluate it on ImageNet with PyTorch.".

(** One page: two headings, each over a paragraph. *)
Definition page : Page :=
  [ heading "Abstract" 50; paragraph abstract_text 70;
    heading "2. Our Approach" 120; paragraph Samples.two_step_text 140 ].

Definition raw (s : string) (y : Q) : ImprovedPDFExtractor.RawBlock :=
  {| ImprovedPDFExtractor.raw_x0 := 72; ImprovedPDFExtractor.raw_y0 := y;
     ImprovedPDFExtractor.raw_text := Some s |}.

Definition raw_page : list ImprovedPDFExtractor.RawBlock :=
  [ raw "Abstract" 50; raw abstract_text 70;
    raw "2. Our Approach" 120; raw Samples.two_step_text 140 ].

(** A file with that page. *)
Definition paper : EnhancedResearchPaperSummarizer.Pdf :=
  {| EnhancedResearchPaperSummarizer.layout := Some [page];
     EnhancedResearchPaperSummarizer.blocks := Some [raw_page] |}.


(** A page of page numbers and running heads. *)
Definition fragments : list ImprovedPDFExtractor.RawBlock :=
  [ raw "12" 20; raw "  Running head  " 30 ].

(** The report on a file by an object fresh from [__init__], with the
    stand-in capabilities; the empty report should the call raise. *)
Definition no_report : EnhancedResearchPaperSummarizer.PaperSummary :=
  {| EnhancedResearchPaperSummarizer.overall_summary := "";
     EnhancedResearchPaperSummarizer.section_summaries := [];
     EnhancedResearchPaperSummarizer.section_keywords := [];
     EnhancedResearchPaperSummarizer.overall_keywords := [];
     EnhancedResearchPaperSummarizer.entities := ∅;
     EnhancedResearchPaperSummarizer.methodology_flowchart := None;
     EnhancedResearchPaperSummarizer.sections_found := [];
     EnhancedResearchPaperSummarizer.num_words_original := 0;
     EnhancedResearchPaperSummarizer.num_words_summary := 0 |}.

Definition fresh : HierarchicalSummarizer.State (H := Reference.capabilities) :=
  HierarchicalSummarizer.init "cpu" None.

Definition report (pdf : EnhancedResearchPaperSummarizer.Pdf)
    : EnhancedResearchPaperSummarizer.PaperSummary :=
  default no_report
    (HierarchicalSummarizer.value
       (EnhancedResearchPaperSummarizer.summarize_paper (H := Reference.capabilities)
          pdf fresh)).

(** One page with a long abstract, which goes through both stages, and a
    short methodology. *)
Definition long_page : Page :=
  [ heading "Abstract" 50;
    paragraph (Samples.eight_sentences +:+ " " +:+ Samples.eight_sentences) 70;
    heading "2. Our Approach" 300; paragraph Samples.two_step_text 320 ].

Definition long_paper : EnhancedResearchPaperSummarizer.Pdf :=
  {| EnhancedResearchPaperSummarizer.layout := Some [long_page];
     EnhancedResearchPaperSummarizer.blocks := None |}.



(** The log entry binds the field. *)
Definition binds (f : HierarchicalSummarizer.Field)
    (entry : HierarchicalSummarizer.Event
             * HierarchicalSummarizer.State (H := Reference.capabilities)) : bool :=
  match entry.1, f with
  | HierarchicalSummarizer.Assign HierarchicalSummarizer.F_sentence_encoder,
    HierarchicalSummarizer.F_sentence_encoder => true
  | HierarchicalSummarizer.Assign HierarchicalSummarizer.F_summarizer,
    HierarchicalSummarizer.F_summarizer => true
  | _, _ => false
  end.

End Cases.

(** * Properties *)

(** ** Strings and sorting *)

Lemma Str_len_take (n : nat) (s : string) : Str.len (Str.take n s) = Nat.min n (Str.len s).
Proof.
  revert s; induction n as [|n IH]; intros [|c s]; simpl; try reflexivity.
  unfold Str.len in *; simpl; rewrite IH; reflexivity.
Qed.

Lemma Str_app_cons (c : ascii) (s t : string) : String c s +:+ t = String c (s +:+ t).
Proof. reflexivity. Qed.

Lemma Str_len_app (s t : string) : Str.len (s +:+ t) = Str.len s + Str.len t.
Proof.
  unfold Str.len; induction s as [|c s IH]; [reflexivity|].
  rewrite Str_app_cons. simpl. now rewrite IH.
Qed.

Lemma Str_app_assoc (s t u : string) : (s +:+ t) +:+ u = s +:+ (t +:+ u).
Proof.
  induction s as [|c s IH]; [reflexivity|].
  rewrite !Str_app_cons. now rewrite IH.
Qed.

Lemma Str_app_empty_r (s : string) : s +:+ "" = s.
Proof.
  induction s as [|c s IH]; [reflexivity|].
  rewrite Str_app_cons. now rewrite IH.
Qed.

Section SortedFacts.
Context {A : Type} (le : A -> A -> bool).
Let R : relation A := fun x y => le x y = true.

Lemma insert_sorted_perm (x : A) (l : list A) : insert_sorted le x l ≡ₚ x :: l.
Proof.
  induction l as [|y l IH]; simpl; [reflexivity|].
  destruct (le x y); [reflexivity|].
  rewrite IH. apply Permutation_swap.
Qed.

Lemma sorted_by_perm (l : list A) : sorted_by le l ≡ₚ l.
Proof.
  induction l as [|x l IH]; simpl; [reflexivity|].
  rewrite insert_sorted_perm. now rewrite IH.
Qed.

Lemma sorted_by_length (l : list A) : List.length (sorted_by le l) = List.length l.
Proof. apply Permutation_length, sorted_by_perm. Qed.

Hypothesis le_total : forall x y, le x y = false -> le y x = true.

Lemma insert_sorted_HdRel (x y : A) (l : list A) :
  R y x -> HdRel R y l -> HdRel R y (insert_sorted le x l).
Proof.
  intros Hyx Hhd. destruct l as [|z l]; simpl.
  - now constructor.
  - destruct (le x z); constructor; [assumption|].
    now inversion Hhd.
Qed.

Lemma insert_sorted_Sorted (x : A) (l : list A) :
  Sorted R l -> Sorted R (insert_sorted le x l).
Proof.
  induction 1 as [|y l Hs IH Hhd]; simpl.
  - repeat constructor.
  - destruct (le x y) eqn:Hxy.
    + constructor; [now constructor | now constructor].
    + constructor; [exact IH|].
      apply insert_sorted_HdRel; [now apply le_total | exact Hhd].
Qed.

Lemma sorted_by_Sorted (l : list A) : Sorted R (sorted_by le l).
Proof.
  induction l as [|x l IH]; simpl; [constructor|].
  now apply insert_sorted_Sorted.
Qed.

Hypothesis le_trans : forall x y z, le x y = true -> le y z = true -> le x z = true.

Lemma sorted_by_StronglySorted (l : list A) : StronglySorted R (sorted_by le l).
Proof.
  apply Sorted_StronglySorted; [|apply sorted_by_Sorted].
  intros x y z; apply le_trans.
Qed.
End SortedFacts.

Lemma StronglySorted_impl {A} (R1 R2 : relation A) (l : list A) :
  (forall x y, R1 x y -> R2 x y) -> StronglySorted R1 l -> StronglySorted R2 l.
Proof.
  intros Himp. induction 1 as [|x l Hs IH Hall]; constructor; [exact IH|].
  eapply Forall_impl; [exact Hall|]. intros y; apply Himp.
Qed.

(** ** Section segmentation *)

Section SegmenterFacts.
Import AdvancedSectionExtractor Spec.

Lemma first_matching_section_in_table table text_clean name :
  first_matching_section table text_clean = Some name ->
  name ∈ map fst table.
Proof.
  induction table as [|[n kws] table IH]; simpl; [discriminate|].
  destruct (existsb _ kws).
  - intros [= <-]. apply list_elem_of_here.
  - intros Hn. apply list_elem_of_further, IH, Hn.
Qed.

(** The table order is the tie-break: an answer is the first section one
    of whose keywords matches. *)
Lemma first_matching_section_first table text_clean name :
  first_matching_section table text_clean = Some name <->
  exists before kws after,
    table = before ++ (name, kws) :: after
    /\ existsb (keyword_matches text_clean) kws = true
    /\ Forall (fun e => existsb (keyword_matches text_clean) e.2 = false) before.
Proof.
  induction table as [|[n kws] table IH]; simpl.
  - split; [discriminate|]. intros (before & ? & ? & Heq & _).
    destruct before; discriminate.
  - destruct (existsb _ kws) eqn:Hk.
    + split.
      * intros [= <-]. exists [], kws, table. repeat split; auto.
      * intros (before & kws' & after & Heq & Hm & Hb).
        destruct before as [|b before]; simpl in Heq.
        -- now inversion Heq.
        -- inversion Heq; subst. inversion Hb; subst. simpl in *. congruence.
    + rewrite IH. split.
      * intros (before & kws' & after & -> & Hm & Hb).
        exists ((n, kws) :: before), kws', after. repeat split; auto.
      * intros (before & kws' & after & Heq & Hm & Hb).
        destruct before as [|b before]; simpl in Heq.
        -- inversion Heq; subst. congruence.
        -- inversion Heq; subst. inversion Hb; subst.
           exists before, kws', after. repeat split; auto.
Qed.

Lemma _match_section_in_table text_lower name :
  _match_section text_lower = Some name -> name ∈ section_names.
Proof. apply first_matching_section_in_table. Qed.

Lemma append_to_known sections key t :
  known_keys sections -> key ∈ section_names ->
  known_keys (append_to sections key t).
Proof.
  intros Hs Hk k. unfold append_to.
  destruct (decide (key = k)) as [->|Hne].
  - intros _. exact Hk.
  - rewrite lookup_insert_ne by exact Hne. apply Hs.
Qed.

Lemma group_loop_known content : forall sections current_section,
  known_keys sections -> current_section ∈ section_names ->
  known_keys (group_loop content sections current_section).
Proof.
  induction content as [|item content IH]; intros sections cur Hs Hc; simpl.
  - exact Hs.
  - destruct (_match_section _) as [matched|] eqn:Hm.
    + apply _match_section_in_table in Hm.
      destruct (is_header item || _); [now apply IH|].
      destruct (_ <? 20); apply IH; auto using append_to_known.
    + destruct (_ <? 20); apply IH; auto using append_to_known.
Qed.

Lemma _group_into_sections_keys structured_content k :
  is_Some (_group_into_sections structured_content !! k) -> k ∈ section_names.
Proof.
  unfold _group_into_sections. rewrite lookup_fmap.
  intros [v Hv]. apply fmap_Some in Hv as (l & Hl & _).
  apply map_lookup_filter_Some in Hl as [Hl _].
  eapply group_loop_known; [| |eexists; exact Hl].
  - intros k' [? Hk']. rewrite lookup_empty in Hk'. discriminate.
  - unfold section_names; simpl. set_solver.
Qed.

(** C5: whatever the PDF, the section map returned by the segmenter has no
    key "references", and all its keys are among abstract, introduction,
    related_work, methodology, experiments, results, discussion and
    conclusion. *)
Theorem extract_sections_from_pdf_keys (doc : option (list Page)) :
  ("references" ∉ dom (extract_sections_from_pdf doc))
  /\ (dom (extract_sections_from_pdf doc) ⊆ vocabulary).
Proof.
  destruct doc as [pages|]; simpl.
  - split.
    + rewrite dom_delete. set_solver.
    + intros k Hk. rewrite dom_delete in Hk.
      apply elem_of_difference in Hk as [Hk Hne].
      apply elem_of_dom, _group_into_sections_keys in Hk.
      unfold section_names in Hk; simpl in Hk. unfold vocabulary.
      set_solver.
  - split; [set_solver|]. rewrite dom_empty. set_solver.
Qed.

(** C2, at the bare headers the claim names: the roman-numeral pattern
    eats the leading letters i, v, x, l, c, d, m of the header itself, and
    what is left matches no keyword. *)
Theorem _match_section_bare_headers :
  _match_section "introduction" = None
  /\ _match_section "methodology" = None
  /\ _match_section "discussion" = None
  /\ _match_section "conclusion" = None
  /\ Re.sub roman_prefix "" "introduction" = "ntroduction"
  /\ _match_section "1. introduction" = None
  /\ _match_section "abstract" = Some "abstract".
Proof. vm_compute. repeat split; reflexivity. Qed.

End SegmenterFacts.

(** ** Flowcharts *)

Section FlowchartFacts.
Import FlowchartGenerator Spec.

Lemma candidate_step_length sent step key :
  candidate_step sent = Some (step, key) -> Str.len step <= 123.
Proof.
  unfold candidate_step; cbv zeta.
  pose proof (Str_len_take 120 (Str.strip sent)) as Ht.
  remember (Str.take 120 (Str.strip sent)) as t eqn:Et; clear Et.
  destruct (negb (_ && _)); [discriminate|].
  destruct (existsb _ PROCESS_INDICATORS || _); [|discriminate].
  destruct (negb (Str.endswith _ _)); intros [= <- _].
  - rewrite Str_len_app, Ht. change (Str.len "...") with 3. lia.
  - lia.
Qed.

Lemma steps_loop_Forall (P : string -> Prop) sentences : forall steps seen,
  (forall sent step key, candidate_step sent = Some (step, key) -> P step) ->
  Forall P steps -> Forall P (steps_loop sentences steps seen).
Proof.
  induction sentences as [|sent rest IH]; intros steps seen Hc Hs; simpl.
  - exact Hs.
  - destruct (candidate_step sent) as [[step key]|] eqn:Hcand; [|now apply IH].
    assert (Forall P (steps ++ [step])) as Hs'.
    { apply Forall_app; split; [exact Hs|]. constructor; [|constructor]. eauto. }
    destruct (bool_decide _); [|now apply IH].
    case_match; [exact Hs'|now apply IH].
Qed.

Lemma _extract_steps_length sentences :
  Forall (fun st => Str.len st <= 123) (_extract_steps sentences).
Proof.
  apply steps_loop_Forall; [|constructor].
  intros sent step key; apply candidate_step_length.
Qed.

Section WithTokenizer.
Variable sent_tokenize : string -> list string.

Lemma generate_flowchart_Some text m :
  generate_flowchart sent_tokenize text = Some m ->
  m = _build_mermaid (_extract_steps (sent_tokenize text)).
Proof.
  unfold generate_flowchart.
  destruct (_ <? 100); [discriminate|].
  destruct (_ <? 3); [discriminate|].
  destruct (_ <? 2); [discriminate|].
  now intros [= <-].
Qed.

(** C4, amended: every step description of a flowchart that is produced
    has at most 123 characters, the first 120 of the sentence and the
    three of the ellipsis. *)
Theorem flowchart_step_length text m :
  generate_flowchart sent_tokenize text = Some m ->
  m = _build_mermaid (_extract_steps (sent_tokenize text))
  /\ Forall (fun st => Str.len st <= 123) (_extract_steps (sent_tokenize text)).
Proof.
  intros Hm. split; [now apply generate_flowchart_Some|].
  apply _extract_steps_length.
Qed.

Lemma _build_mermaid_two a b :
  _build_mermaid [a; b] = render (two_step_graph a b).
Proof.
  unfold _build_mermaid, render, two_step_graph, node_line, edge_line,
    render_node, render_edge, sanitize; cbn.
  rewrite !Str_app_assoc. reflexivity.
Qed.

(** C8: no flowchart exactly when the text has fewer than 100
    characters, or fewer than 3 sentences, or fewer than 2 qualifying
    steps; and with exactly two steps the flowchart is the graph with
    nodes Start, S1, S2, End and edges Start->S1, S1->S2, S2->End. *)
Theorem generate_flowchart_null_iff text :
  (generate_flowchart sent_tokenize text = None <->
     Str.len text < 100
     \/ List.length (sent_tokenize text) < 3
     \/ List.length (_extract_steps (sent_tokenize text)) < 2)
  /\ (forall a b,
        100 <= Str.len text ->
        3 <= List.length (sent_tokenize text) ->
        _extract_steps (sent_tokenize text) = [a; b] ->
        generate_flowchart sent_tokenize text = Some (render (two_step_graph a b))).
Proof.
  unfold generate_flowchart. split.
  - destruct (Nat.ltb_spec (Str.len text) 100); [split; auto|].
    destruct (Nat.ltb_spec (List.length (sent_tokenize text)) 3); [split; auto|].
    destruct (Nat.ltb_spec (List.length (_extract_steps (sent_tokenize text))) 2);
      [split; auto|].
    split; [discriminate|]. lia.
  - intros a b Hlen Hsent Hsteps.
    destruct (Nat.ltb_spec (Str.len text) 100); [lia|].
    destruct (Nat.ltb_spec (List.length (sent_tokenize text)) 3); [lia|].
    rewrite Hsteps. simpl. now rewrite <- _build_mermaid_two.
Qed.
End WithTokenizer.

(** C4 as stated fails: a sentence of 158 characters yields a step of 123. *)
Lemma flowchart_step_over_120 :
  generate_flowchart Reference.sent_tokenize Samples.long_step_text <> None
  /\ ~ Forall (fun st => Str.len st <= 120)
         (_extract_steps (Reference.sent_tokenize Samples.long_step_text)).
Proof.
  split.
  - vm_compute. discriminate.
  - intros HF. apply Forall_inv in HF. vm_compute in HF. lia.
Qed.

Lemma flowchart_step_length_witness :
  exists m,
    generate_flowchart Reference.sent_tokenize Samples.long_step_text = Some m
    /\ Forall (fun st => Str.len st <= 123)
         (_extract_steps (Reference.sent_tokenize Samples.long_step_text)).
Proof.
  eexists. split; [vm_compute; reflexivity|].
  eapply (flowchart_step_length Reference.sent_tokenize Samples.long_step_text).
  vm_compute; reflexivity.
Defined.

Lemma generate_flowchart_null_iff_witness :
  generate_flowchart Reference.sent_tokenize Samples.two_step_text
  = Some (render (two_step_graph
                    "We first collect data from the public web sources."
                    "Finally we evaluate results on the held-out test split.")).
Proof.
  apply (proj2 (generate_flowchart_null_iff Reference.sent_tokenize Samples.two_step_text)).
  - vm_compute. lia.
  - vm_compute. lia.
  - vm_compute. reflexivity.
Defined.

End FlowchartFacts.

(** ** Entities *)

Section EntityFacts.
Import EnhancedEntityExtractor Spec.

Lemma foldl_invariant {A B} (P : B -> Prop) (f : B -> A -> B) (l : list A) :
  forall b, P b -> (forall b a, a ∈ l -> P b -> P (f b a)) -> P (foldl f b l).
Proof.
  induction l as [|a l IH]; intros b Hb Hf; simpl; [exact Hb|].
  apply IH.
  - apply Hf; [apply list_elem_of_here | exact Hb].
  - intros b' a' Ha'. apply Hf. now apply list_elem_of_further.
Qed.

Lemma add_entity_inv text keys ents entity_type entity :
  entity_type ∈ keys ->
  _validate_entity entity entity_type text = true ->
  scan_inv text keys ents -> scan_inv text keys (add_entity ents entity_type entity).
Proof.
  intros Hk Hv [Hd Hval]. unfold add_entity. split.
  - intros k. destruct (decide (entity_type = k)) as [<-|Hne]; [auto|].
    rewrite lookup_insert_ne by exact Hne. apply Hd.
  - intros k X e. destruct (decide (entity_type = k)) as [<-|Hne].
    + rewrite lookup_insert_eq. intros [= <-] He.
      apply elem_of_union in He as [He|He].
      * destruct (ents !! entity_type) as [Y|] eqn:HY; simpl in He.
        -- eapply Hval; eauto.
        -- set_solver.
      * apply elem_of_singleton in He as ->. exact Hv.
    + rewrite lookup_insert_ne by exact Hne. apply Hval.
Qed.

Lemma scan_matches_inv text keys entity_type ents matches :
  entity_type ∈ keys ->
  scan_inv text keys ents ->
  scan_inv text keys (scan_matches text entity_type ents matches).
Proof.
  intros Hk Hinv. unfold scan_matches.
  apply foldl_invariant; [exact Hinv|].
  intros b m _ Hb.
  destruct (_validate_entity _ _ _) eqn:Hv; [|exact Hb].
  now apply add_entity_inv.
Qed.

Lemma scan_patterns_inv text table :
  scan_inv text (map fst table) (scan_patterns text table).
Proof.
  unfold scan_patterns. apply foldl_invariant.
  - split.
    + intros k [? Hk]. rewrite lookup_empty in Hk. discriminate.
    + intros k X e Hk. rewrite lookup_empty in Hk. discriminate.
  - intros ents [entity_type patterns] Hin Hinv.
    apply foldl_invariant; [exact Hinv|].
    intros b p _ Hb. apply scan_matches_inv; [|exact Hb].
    apply list_elem_of_fmap. exists (entity_type, patterns). auto.
Qed.

Lemma ensure_keys_lookup keys : forall (m : gmap string (list string)) k,
  foldl (fun fe key =>
           match fe !! key with
           | None => <[key := []]> fe
           | Some _ => fe
           end) m keys !! k
  = match m !! k with
    | Some l => Some l
    | None => if bool_decide (k ∈ keys) then Some [] else None
    end.
Proof.
  induction keys as [|key keys IH]; intros m k; simpl.
  - now destruct (m !! k).
  - rewrite IH. destruct (m !! key) as [l|] eqn:Hkey.
    + destruct (m !! k) as [l'|] eqn:Hk; [reflexivity|].
      assert (k <> key) by congruence.
      rewrite !bool_decide_decide.
      destruct (decide (k ∈ keys)), (decide (k ∈ key :: keys)); set_solver.
    + destruct (decide (key = k)) as [->|Hne].
      * rewrite lookup_insert_eq, Hkey.
        rewrite bool_decide_true by apply list_elem_of_here. reflexivity.
      * rewrite lookup_insert_ne by exact Hne.
        destruct (m !! k); [reflexivity|].
        rewrite !bool_decide_decide.
        destruct (decide (k ∈ keys)), (decide (k ∈ key :: keys)); set_solver.
Qed.

Lemma rank_entities_spec text X :
  NoDup (rank_entities text X)
  /\ StronglySorted (fun e1 e2 => Str.count text e2 <= Str.count text e1)
       (rank_entities text X)
  /\ List.length (rank_entities text X) <= 15
  /\ (forall e, e ∈ rank_entities text X -> e ∈ X).
Proof.
  unfold rank_entities.
  set (le := fun e1 e2 => Str.count text e2 <=? Str.count text e1).
  pose proof (sorted_by_perm le (elements X)) as Hperm.
  assert (NoDup (sorted_by le (elements X))) as Hnd.
  { rewrite Hperm. apply NoDup_elements. }
  assert (StronglySorted (fun e1 e2 => le e1 e2 = true) (sorted_by le (elements X)))
    as Hss.
  { apply sorted_by_StronglySorted; unfold le.
    - intros x y Hxy. apply Nat.leb_gt in Hxy. apply Nat.leb_le. lia.
    - intros x y z Hxy Hyz. apply Nat.leb_le in Hxy, Hyz. apply Nat.leb_le. lia. }
  repeat split.
  - rewrite <- (take_drop 15 (sorted_by le (elements X))) in Hnd.
    now apply NoDup_app in Hnd as [? _].
  - rewrite <- (take_drop 15 (sorted_by le (elements X))) in Hss.
    apply StronglySorted_app_1_l in Hss.
    eapply StronglySorted_impl; [|exact Hss].
    intros e1 e2 Hle. unfold le in Hle. simpl in Hle. now apply Nat.leb_le in Hle.
  - rewrite length_take. lia.
  - intros e He. apply elem_of_take in He as (i & He & _).
    apply list_elem_of_lookup_2 in He. rewrite Hperm in He.
    now apply elem_of_elements in He.
Qed.

Lemma extract_entities_lookup text k l :
  extract_entities text !! k = Some l ->
  (exists X, scan_patterns text entity_patterns !! k = Some X
             /\ l = rank_entities text X)
  \/ (l = [] /\ k ∈ canonical_keys).
Proof.
  unfold extract_entities, ensure_keys. rewrite ensure_keys_lookup, lookup_fmap.
  destruct (scan_patterns text entity_patterns !! k) as [X|]; simpl.
  - intros [= <-]. left. eauto.
  - case_bool_decide; [|discriminate]. intros [= <-]. right. auto.
Qed.

(** C6: the bundle has exactly the keys models, datasets, metrics,
    frameworks and techniques; each sequence has no repetition, is in
    descending order of the number of occurrences in the text, and has at
    most 15 members. *)
Theorem extract_entities_bundle (text : string) :
  dom (extract_entities text)
    = {[ "models"; "datasets"; "metrics"; "frameworks"; "techniques" ]}
  /\ map_Forall (fun _ l =>
       NoDup l
       /\ StronglySorted (fun e1 e2 => Str.count text e2 <= Str.count text e1) l
       /\ List.length l <= 15) (extract_entities text).
Proof.
  split.
  - apply set_eq. intros k. rewrite elem_of_dom.
    unfold extract_entities, ensure_keys.
    rewrite ensure_keys_lookup, lookup_fmap.
    destruct (scan_patterns_inv text entity_patterns) as [Hkeys _].
    specialize (Hkeys k).
    destruct (scan_patterns text entity_patterns !! k) as [X|]; simpl.
    + split; [intros _|eauto].
      assert (k ∈ map fst entity_patterns) as Hk by eauto.
      simpl in Hk. set_solver.
    + unfold canonical_keys. case_bool_decide as Hk.
      * split; [intros _; set_solver | eauto].
      * split; [intros [? ?]; discriminate | intros Hin; exfalso; set_solver].
  - intros k l Hl. apply extract_entities_lookup in Hl as [(X & _ & ->)|[-> _]].
    + destruct (rank_entities_spec text X) as (? & ? & ? & _). auto.
    + repeat split; [constructor | constructor | simpl; lia].
Qed.

Lemma has_alpha_spec s :
  has_alpha s = true <->
  exists c, In c (list_ascii_of_string s) /\ Char.isalpha c = true.
Proof. unfold has_alpha. apply existsb_exists. Qed.

Lemma Qlt_bool_false_iff a b :
  Qlt_bool a b = false <-> (b <= a)%Q.
Proof.
  unfold Qlt_bool.
  rewrite negb_false_iff. apply Qle_bool_iff.
Qed.

Lemma _validate_entity_iff entity entity_type context :
  _validate_entity entity entity_type context = true <->
  (2 <= Str.len entity <= 50
   /\ (exists c, In c (list_ascii_of_string entity) /\ Char.isalpha c = true)
   /\ (density entity <= 3 # 10)%Q).
Proof.
  unfold _validate_entity. rewrite <- has_alpha_spec, <- Qlt_bool_false_iff.
  destruct (Nat.ltb_spec (Str.len entity) 2); simpl.
  { split; [discriminate | lia]. }
  destruct (Nat.ltb_spec 50 (Str.len entity)); simpl.
  { split; [discriminate | lia]. }
  destruct (has_alpha entity); simpl.
  2: { split; [discriminate | intros (_ & ? & _); discriminate]. }
  destruct (Qlt_bool _ _).
  - split; [discriminate | intros (_ & _ & ?); discriminate].
  - split; [intros _; repeat split; auto; lia | reflexivity].
Qed.

(** C7: the validator accepts exactly the strings of 2 to 50 characters
    that contain a letter and whose share of punctuation characters is at
    most 3/10; it rejects "@@@x" (share 3/4) and accepts "BERT-2" (share
    1/6); every string of an entity bundle is accepted by it. *)
Theorem _validate_entity_spec :
  (forall entity entity_type context,
     _validate_entity entity entity_type context = true <->
     (2 <= Str.len entity <= 50
      /\ (exists c, In c (list_ascii_of_string entity) /\ Char.isalpha c = true)
      /\ (density entity <= 3 # 10)%Q))
  /\ (forall entity_type context,
        _validate_entity "@@@x" entity_type context = false
        /\ (density "@@@x" == 3 # 4)%Q)
  /\ (forall entity_type context,
        _validate_entity "BERT-2" entity_type context = true
        /\ (density "BERT-2" == 1 # 6)%Q)
  /\ (forall text,
        map_Forall (fun k l => Forall (fun e => _validate_entity e k text = true) l)
          (extract_entities text)).
Proof.
  split; [exact _validate_entity_iff|].
  split; [intros; split; reflexivity|].
  split; [intros; split; reflexivity|].
  intros text k l Hl. apply extract_entities_lookup in Hl as [(X & HX & ->)|[-> _]].
  - destruct (scan_patterns_inv text entity_patterns) as [_ Hval].
    apply Forall_forall. intros e He.
    apply (Hval k X e HX).
    apply (rank_entities_spec text X). exact He.
  - constructor.
Qed.

End EntityFacts.

(** ** The summarization pipeline *)

Section SummarizerFacts.
Import HierarchicalSummarizer Spec.
Context `{Capabilities}.

(** *** Rules for [triple] and [preserves] *)

Lemma triple_conseq {A} (P P' : State -> Prop) (m : M A)
    (I I' : Event * State -> Prop) (Qn Qn' : A -> State -> Prop)
    (Qe Qe' : State -> Prop) :
  triple P m I Qn Qe ->
  (forall s, P' s -> P s) ->
  (forall entry, I entry -> I' entry) ->
  (forall a s, Qn a s -> Qn' a s) ->
  (forall s, Qe s -> Qe' s) ->
  triple P' m I' Qn' Qe'.
Proof.
  intros Hm HP HI Hn He s Hs. destruct (Hm s (HP s Hs)) as [Hlog Hpost]. split.
  - eapply Forall_impl; [exact Hlog | exact HI].
  - destruct (value (m s)); auto.
Qed.

Lemma triple_bind {A B} (P : State -> Prop) (m : M A) (f : A -> M B)
    (I : Event * State -> Prop) (R : A -> State -> Prop)
    (Qn : B -> State -> Prop) (Qe : State -> Prop) :
  triple P m I R Qe ->
  (forall a, triple (R a) (f a) I Qn Qe) ->
  triple P (bind m f) I Qn Qe.
Proof.
  intros Hm Hf s Hs. destruct (Hm s Hs) as [Hlog Hpost]. unfold bind.
  destruct (value (m s)) as [a|]; simpl.
  - destruct (Hf a _ Hpost) as [Hlog' Hpost']. split; [|exact Hpost'].
    apply Forall_app; auto.
  - auto.
Qed.

Lemma triple_ret {A} (P : State -> Prop) (a : A) I (Qn : A -> State -> Prop) Qe :
  (forall s, P s -> Qn a s) -> triple P (ret a) I Qn Qe.
Proof. intros HQ s Hs. split; [constructor | apply HQ, Hs]. Qed.

Section Preserves.
Variables (J : State -> Prop) (E : Event -> Prop).

Lemma preserves_ret {A} (a : A) : preserves J E (ret a).
Proof. intros s Hs. split; [constructor | exact Hs]. Qed.

Lemma preserves_raise {A} : preserves J E (@raise _ A).
Proof. intros s Hs. split; [constructor | exact Hs]. Qed.

Lemma preserves_get : preserves J E get.
Proof. intros s Hs. split; [constructor | exact Hs]. Qed.

Lemma preserves_lift {A} (o : option A) : preserves J E (lift o).
Proof. destruct o; [apply preserves_ret | apply preserves_raise]. Qed.

Lemma preserves_event (e : Event) (update : State -> State) :
  E e -> (forall s, J s -> J (update s)) -> preserves J E (event e update).
Proof.
  intros He Hu s Hs. split; simpl; [|auto].
  constructor; [|constructor]. simpl. auto.
Qed.

Lemma preserves_bind {A B} (m : M A) (f : A -> M B) :
  preserves J E m -> (forall a, preserves J E (f a)) -> preserves J E (bind m f).
Proof. intros Hm Hf. eapply triple_bind; [exact Hm | exact Hf]. Qed.

Lemma preserves_try_except {A} (m handler : M A) :
  preserves J E m -> preserves J E handler -> preserves J E (try_except m handler).
Proof.
  intros Hm Hh s Hs. destruct (Hm s Hs) as [Hlog Hpost]. unfold try_except.
  destruct (value (m s)) as [a|] eqn:Hv.
  - rewrite Hv. auto.
  - destruct (Hh _ Hpost) as [Hlog' Hpost']. simpl. split; [|exact Hpost'].
    apply Forall_app; auto.
Qed.
End Preserves.

Ltac preserve_step :=
  lazymatch goal with
  | |- preserves _ _ (bind _ _) => apply preserves_bind; [|intros ?]
  | |- preserves _ _ (try_except _ _) => apply preserves_try_except
  | |- preserves _ _ (ret _) => apply preserves_ret
  | |- preserves _ _ raise => apply preserves_raise
  | |- preserves _ _ get => apply preserves_get
  | |- preserves _ _ (lift _) => apply preserves_lift
  | |- preserves _ _ (event _ _) => apply preserves_event; [|intros ? ?]
  | |- preserves _ _ (match ?x with _ => _ end) => destruct x eqn:?
  | |- preserves _ _ (if ?x then _ else _) => destruct x eqn:?
  end.

Ltac preserve := repeat preserve_step.

(** *** The extractive phase keeps the summarizer field empty *)

Lemma _load_sentence_encoder_preserves :
  preserves no_summarizer extractive_event _load_sentence_encoder.
Proof.
  unfold _load_sentence_encoder, load_pair, extractive_event.
  preserve; try (split; discriminate); assumption.
Qed.

Lemma extractive_summary_preserves text ratio :
  preserves no_summarizer extractive_event (extractive_summary text ratio).
Proof.
  unfold extractive_summary.
  apply preserves_bind; [|intros _].
  { apply preserves_event; [split; discriminate | auto]. }
  case_match; [apply preserves_ret|].
  case_match; [apply preserves_ret|].
  apply preserves_bind; [apply _load_sentence_encoder_preserves | intros _].
  unfold extractive_event.
  preserve; try (split; discriminate); assumption.
Qed.

Lemma _unload_sentence_encoder_triple :
  triple no_summarizer _unload_sentence_encoder
    (fun entry => extractive_event entry.1 /\ no_summarizer entry.2)
    (fun _ => no_model) no_model.
Proof.
  intros s Hs. unfold _unload_sentence_encoder, del, bind, get, event, ret, raise,
    no_model, no_encoder, no_summarizer, extractive_event in *; simpl.
  destruct (sentence_encoder s) eqn:He; simpl.
  - destruct (tokenizer s) eqn:Ht; simpl; rewrite ?Ht; simpl;
      repeat (split || constructor || discriminate || assumption).
  - repeat (split || constructor || assumption).
Qed.

(** *** The abstractive phase keeps the encoder field empty *)

Lemma _load_summarizer_preserves :
  preserves no_encoder abstractive_event _load_summarizer.
Proof.
  unfold _load_summarizer, load_pair, abstractive_event.
  preserve; try discriminate; assumption.
Qed.

Lemma abstractive_summary_preserves text max_length :
  preserves no_encoder abstractive_event (abstractive_summary text max_length).
Proof.
  unfold abstractive_summary.
  apply preserves_bind; [|intros _].
  { apply preserves_event; [discriminate | auto]. }
  case_match; [apply preserves_ret|].
  apply preserves_bind; [apply _load_summarizer_preserves | intros _].
  unfold abstractive_event.
  preserve; try discriminate; assumption.
Qed.

Lemma _unload_summarizer_triple :
  triple no_encoder _unload_summarizer
    (fun entry => abstractive_event entry.1 /\ no_encoder entry.2)
    (fun _ => no_model) no_model.
Proof.
  intros s Hs. unfold _unload_summarizer, del, bind, get, event, ret, raise,
    no_model, no_encoder, no_summarizer, abstractive_event in *; simpl.
  destruct (summarizer s) eqn:He; simpl.
  - destruct (sum_tokenizer s) eqn:Ht; simpl; rewrite ?Ht; simpl;
      repeat (split || constructor || discriminate || assumption).
  - repeat (split || constructor || assumption).
Qed.

(** *** Keyword extraction touches neither field *)

Lemma extract_keywords_preserves text n :
  preserves no_model (fun _ => True) (extract_keywords text n).
Proof. unfold extract_keywords. preserve; auto. Qed.

Lemma no_summarizer_not_both s : no_summarizer s -> ~ both_resident s.
Proof.
  unfold no_summarizer. intros Hs [_ [m Hm]]. congruence.
Qed.

Lemma no_encoder_not_both s : no_encoder s -> ~ both_resident s.
Proof.
  unfold no_encoder. intros Hs [[m Hm] _]. congruence.
Qed.

Lemma both_residentb_spec s : both_residentb s = true <-> both_resident s.
Proof.
  unfold both_residentb, both_resident.
  destruct (sentence_encoder s), (summarizer s); split;
    try discriminate; try (intros [[? ?] [? ?]]; discriminate); eauto.
Qed.

Lemma summarize_section_triple section_text section_name :
  triple no_summarizer (summarize_section section_text section_name)
    residency_discipline (fun _ => no_summarizer) (fun s => ~ both_resident s).
Proof.
  unfold summarize_section.
  case_match.
  { apply triple_ret. auto. }
  eapply triple_bind with (R := fun _ => no_summarizer).
  { eapply triple_conseq; [apply extractive_summary_preserves|..]; auto.
    - intros [e s] [[He1 He2] Hs]; unfold residency_discipline; simpl in *. repeat split.
      + now apply no_summarizer_not_both.
      + intros ->. congruence.
      + intros _. exact Hs.
    - apply no_summarizer_not_both. }
  intros extractive.
  eapply triple_bind with (R := fun _ => no_model).
  { eapply triple_conseq; [apply _unload_sentence_encoder_triple|..]; auto.
    - intros [e s] [[He1 He2] Hs]; unfold residency_discipline; simpl in *. repeat split.
      + now apply no_summarizer_not_both.
      + intros ->. congruence.
      + intros _. exact Hs.
    - intros s [_ Hs]. now apply no_summarizer_not_both. }
  intros _.
  eapply triple_bind with (R := fun _ => no_encoder).
  { eapply triple_conseq; [apply abstractive_summary_preserves|..]; auto.
    - intros s [He _]. exact He.
    - intros [e s] [He Hs]; unfold residency_discipline; simpl in *. repeat split.
      + now apply no_encoder_not_both.
      + intros _. exact Hs.
      + intros ->. congruence.
    - apply no_encoder_not_both. }
  intros abstractive.
  eapply triple_bind with (R := fun _ => no_model).
  { eapply triple_conseq; [apply _unload_summarizer_triple|..]; auto.
    - intros [e s] [He Hs]; unfold residency_discipline; simpl in *. repeat split.
      + now apply no_encoder_not_both.
      + intros _. exact Hs.
      + intros ->. congruence.
    - intros s [He _]. now apply no_encoder_not_both. }
  intros _.
  eapply triple_bind with (R := fun _ => no_model).
  { eapply triple_conseq; [apply extract_keywords_preserves|..]; auto.
    - intros [e s] [_ [He Hs]]; unfold residency_discipline; simpl in *. repeat split.
      + now apply no_summarizer_not_both.
      + intros _. exact He.
      + intros _. exact Hs.
    - intros s [_ Hs]. now apply no_summarizer_not_both. }
  intros keywords. apply triple_ret. intros s [_ Hs]. exact Hs.
Qed.


End SummarizerFacts.

(** ** The extractive stage and the short circuit *)

Section SelectionFacts.
Import HierarchicalSummarizer Spec.

Lemma int_of_Q_two_fifths (n : nat) :
  int_of_Q (inject_Z (Z.of_nat n) * (2 # 5)) = Z.of_nat (2 * n / 5).
Proof.
  unfold int_of_Q.
  change (Qnum (inject_Z (Z.of_nat n) * (2 # 5))) with (Z.of_nat n * 2)%Z.
  change (Z.pos (Qden (inject_Z (Z.of_nat n) * (2 # 5)))) with 5%Z.
  rewrite Z.quot_div_nonneg by lia.
  rewrite Nat2Z.inj_div, Nat2Z.inj_mul. f_equal. lia.
Qed.

Lemma n_select_two_fifths (n : nat) :
  Z.to_nat (Z.max 3 (int_of_Q (inject_Z (Z.of_nat n) * (2 # 5))))
  = Nat.max 3 (2 * n / 5).
Proof. rewrite int_of_Q_two_fifths. lia. Qed.

Lemma slice_last_drop {A} (k : nat) (l : list A) :
  0 < k -> slice_last k l = drop (List.length l - k) l.
Proof.
  intros Hk. unfold slice_last. destruct (Nat.eqb_spec k 0); [lia | reflexivity].
Qed.

Lemma argsort_perm (n : nat) (score : nat -> Q) : argsort n score ≡ₚ seq 0 n.
Proof. apply sorted_by_perm. Qed.

Lemma StronglySorted_le_lt (l : list nat) :
  StronglySorted (fun i j => (i <=? j) = true) l -> NoDup l -> StronglySorted lt l.
Proof.
  induction 1 as [|x l Hs IH Hall]; intros Hnd; [constructor|].
  apply NoDup_cons in Hnd as [Hx Hnd]. constructor; [now apply IH|].
  apply Forall_forall. intros y Hy.
  rewrite Forall_forall in Hall. specialize (Hall y Hy). apply Nat.leb_le in Hall.
  assert (x <> y) by (intros ->; contradiction). lia.
Qed.

(** Reading a list at increasing positions yields a sublist. *)
Lemma map_nth_shift {A} (d q : A) (qs : list A) (idx : list nat) :
  Forall (fun i => 0 < i) idx ->
  map (fun i => nth i (q :: qs) d) idx = map (fun i => nth i qs d) (map pred idx).
Proof.
  induction 1 as [|i idx Hi _ IH]; [reflexivity|].
  cbn [map]. f_equal; [|exact IH].
  destruct i; [lia | reflexivity].
Qed.

Lemma StronglySorted_lt_pred (idx : list nat) :
  Forall (fun i => 0 < i) idx -> StronglySorted lt idx ->
  StronglySorted lt (map pred idx).
Proof.
  intros Hpos Hs. induction Hs as [|i idx Hs IH Hall]; simpl; [constructor|].
  apply Forall_cons in Hpos as [Hi Hpos]. constructor; [now apply IH|].
  apply Forall_fmap. rewrite Forall_forall in *. intros j Hj; simpl.
  specialize (Hall j Hj). specialize (Hpos j Hj). lia.
Qed.

Lemma map_nth_sublist {A} (d : A) (qs : list A) : forall idx,
  StronglySorted lt idx -> Forall (fun i => i < List.length qs) idx ->
  sublist (map (fun i => nth i qs d) idx) qs.
Proof.
  induction qs as [|q qs IH]; intros idx Hs Hlt.
  - destruct idx as [|i idx]; [constructor|].
    apply Forall_cons in Hlt as [Hi _]. simpl in Hi. lia.
  - destruct idx as [|i idx]; [apply sublist_nil_l|].
    apply StronglySorted_inv in Hs as [Hs Hall].
    assert (Forall (fun j => 0 < j) idx) as Hpos.
    { eapply Forall_impl; [exact Hall|]. simpl; intros; lia. }
    assert (Forall (fun j => j < List.length qs) (map pred idx)) as Hlt'.
    { apply Forall_cons in Hlt as [_ Hlt]. apply Forall_fmap.
      rewrite Forall_forall in *. intros j Hj; simpl.
      specialize (Hlt j Hj). specialize (Hpos j Hj). simpl in Hlt. lia. }
    destruct i as [|i].
    + cbn [map]. change (nth 0 (q :: qs) d) with q.
      rewrite map_nth_shift by exact Hpos.
      apply sublist_skip, IH; [now apply StronglySorted_lt_pred | exact Hlt'].
    + assert (Forall (fun j => 0 < j) (S i :: idx)) as Hpos'.
      { constructor; [lia | exact Hpos]. }
      rewrite map_nth_shift by exact Hpos'.
      apply sublist_cons, IH.
      * apply StronglySorted_lt_pred; [exact Hpos'|]. now constructor.
      * simpl. constructor; [|exact Hlt'].
        apply Forall_cons in Hlt as [Hi _]. simpl in Hi. lia.
Qed.

(** The selection of lines 626-628 at ratio 0.4. *)
Lemma select_top_spec (quality_sents : list string) (score : nat -> Q) :
  let n := List.length quality_sents in
  exists idx,
    select_top quality_sents score (2 # 5)
      = map (fun i => nth i quality_sents "") idx
    /\ StronglySorted lt idx
    /\ Forall (fun i => i < n) idx
    /\ List.length idx = Nat.min n (Nat.max 3 (2 * n / 5)).
Proof.
  intros n. unfold select_top. fold n. rewrite n_select_two_fifths.
  set (k := Nat.max 3 (2 * n / 5)).
  rewrite slice_last_drop by lia.
  pose proof (argsort_perm n score) as Hperm.
  set (order := argsort n score) in *.
  set (top := drop (List.length order - k) order).
  assert (List.length order = n) as Hlen.
  { rewrite (Permutation_length Hperm). apply length_seq. }
  assert (NoDup order) as Hnd by (rewrite Hperm; apply NoDup_seq).
  assert (NoDup top) as Hndtop.
  { rewrite <- (take_drop (List.length order - k) order) in Hnd.
    now apply NoDup_app in Hnd as (_ & _ & ?). }
  assert (Forall (fun i => i < n) top) as Hlt.
  { apply Forall_forall. intros i Hi.
    assert (i ∈ order) as Hio.
    { rewrite <- (take_drop (List.length order - k) order).
      apply elem_of_app. now right. }
    rewrite Hperm in Hio. apply elem_of_seq in Hio. lia. }
  pose proof (sorted_by_perm Nat.leb top) as Hp.
  exists (sorted_by Nat.leb top). repeat split.
  - apply StronglySorted_le_lt.
    + apply sorted_by_StronglySorted.
      * intros x y Hxy. apply Nat.leb_gt in Hxy. apply Nat.leb_le. lia.
      * intros x y z Hxy Hyz. apply Nat.leb_le in Hxy, Hyz. apply Nat.leb_le. lia.
    + now rewrite Hp.
  - now rewrite Hp.
  - rewrite (Permutation_length Hp). unfold top. rewrite length_drop. lia.
Qed.

Section WithCapabilities.
Context `{Capabilities}.

Lemma bind_value_Some {A B} (m : M A) (f : A -> M B) (s : State) (b : B) :
  value (bind m f s) = Some b ->
  exists a, value (m s) = Some a /\ value (f a (final (m s))) = Some b.
Proof.
  unfold bind. destruct (value (m s)) as [a|]; simpl; [eauto | discriminate].
Qed.

Lemma is_quality_spec (s : string) :
  is_quality s = true <->
  30 < Str.len s < 500 /\ 5 <= List.length (Str.split s).
Proof.
  unfold is_quality. rewrite !andb_true_iff, !Nat.ltb_lt, Nat.leb_le. lia.
Qed.

(** Every way out of the extractive stage that yields a summary after
    scoring yields the selection for some scores. *)
Lemma extractive_summary_value (text : string) (ratio : Q) (s0 : State) (out : string) :
  3 <= List.length (sent_tokenize text) ->
  List.filter is_quality (sent_tokenize text) <> [] ->
  value (extractive_summary text ratio s0) = Some out ->
  exists score,
    out = Str.join " "
            (select_top (List.filter is_quality (sent_tokenize text)) score ratio).
Proof.
  intros Hsent Hq Hv. unfold extractive_summary in Hv.
  apply bind_value_Some in Hv as (_ & _ & Hv).
  destruct (Nat.ltb_spec (List.length (sent_tokenize text)) 3); [lia|].
  destruct (List.filter is_quality (sent_tokenize text)) as [|q qs] eqn:Eq;
    [congruence|].
  apply bind_value_Some in Hv as (_ & _ & Hv).
  apply bind_value_Some in Hv as (s & _ & Hv).
  apply bind_value_Some in Hv as (tok & _ & Hv).
  apply bind_value_Some in Hv as (enc & _ & Hv).
  apply bind_value_Some in Hv as (_ & _ & Hv).
  apply bind_value_Some in Hv as (score & _ & Hv).
  simpl in Hv. injection Hv as <-. exists score. reflexivity.
Qed.

(** C3, amended: when the text has at least three sentences, n >= 1 of
    which pass the quality filter, a summary that the extractive stage
    returns is made of exactly min(n, max(3, floor(0.4 n))) quality
    sentences, joined by spaces, in the order they have in the text. *)
Theorem extractive_summary_selection (text : string) (s0 : State) (out : string) :
  let quality_sents := List.filter is_quality (sent_tokenize text) in
  let n := List.length quality_sents in
  3 <= List.length (sent_tokenize text) ->
  1 <= n ->
  value (extractive_summary text (2 # 5) s0) = Some out ->
  exists (selected : list string) (idx : list nat),
    out = Str.join " " selected
    /\ List.length selected = Nat.min n (Nat.max 3 (2 * n / 5))
    /\ selected = map (fun i => nth i quality_sents "") idx
    /\ StronglySorted lt idx
    /\ Forall (fun i => i < n) idx
    /\ sublist selected quality_sents.
Proof.
  intros qs n Hsent Hn Hv.
  assert (qs <> []) as Hne by (intros Hq; unfold n in Hn; rewrite Hq in Hn; simpl in Hn; lia).
  destruct (extractive_summary_value text (2 # 5) s0 out Hsent Hne Hv) as [score ->].
  destruct (select_top_spec qs score) as (idx & Hsel & Hs & Hlt & Hlen).
  fold qs. exists (select_top qs score (2 # 5)), idx.
  split; [reflexivity|]. rewrite Hsel.
  split; [now rewrite length_map|].
  split; [reflexivity|]. split; [exact Hs|]. split; [exact Hlt|].
  now apply map_nth_sublist.
Qed.

(** C10: when the text has fewer than three sentences, or no sentence
    of more than 30 and fewer than 500 characters with at least five
    words, the extractive stage returns the text as it is; it logs its
    own entry and nothing else, so the encoder is never loaded, and the
    state is unchanged. *)
Theorem extractive_summary_passthrough (text : string) (ratio : Q) (s0 : State) :
  List.length (sent_tokenize text) < 3
  \/ Forall (fun s => ~ (30 < Str.len s < 500 /\ 5 <= List.length (Str.split s)))
       (sent_tokenize text) ->
  value (extractive_summary text ratio s0) = Some text
  /\ final (extractive_summary text ratio s0) = s0
  /\ log (extractive_summary text ratio s0) = [(Call "extractive_summary", s0)]
  /\ Forall (fun entry : Event * State => entry.1 <> Assign F_sentence_encoder)
       (log (extractive_summary text ratio s0)).
Proof.
  intros Hcase.
  assert (extractive_summary text ratio s0
          = {| log := [(Call "extractive_summary", s0)]; final := s0;
               value := Some text |}) as ->.
  { unfold extractive_summary, bind, event; simpl.
    destruct (Nat.ltb_spec (List.length (sent_tokenize text)) 3) as [Hlt|Hge];
      [reflexivity|].
    destruct Hcase as [Hlt|Hall]; [lia|].
    assert (List.filter is_quality (sent_tokenize text) = []) as ->; [|reflexivity].
    clear Hge. induction Hall as [|s l Hs _ IH]; simpl; [reflexivity|].
    destruct (is_quality s) eqn:Hqs; [|exact IH].
    apply is_quality_spec in Hqs. contradiction. }
  simpl. repeat split. constructor; [discriminate | constructor].
Qed.

(** C9: when the cleaned text has fewer than 50 words, the call returns
    it with no keywords; nothing is logged, so no stage is entered and
    no model is loaded or run, and the state is unchanged. *)
Theorem summarize_section_short_circuit (section_text section_name : string) (s0 : State) :
  List.length (Str.split (preprocess_text section_text)) < 50 ->
  summarize_section section_text section_name s0
  = {| log := []; final := s0; value := Some (preprocess_text section_text, []) |}.
Proof.
  intros Hwords. unfold summarize_section.
  destruct (Nat.ltb_spec (List.length (Str.split (preprocess_text section_text))) 50);
    [reflexivity | lia].
Qed.
End WithCapabilities.

(** C3 as stated fails: of eight quality sentences three are kept, where
    rounding up would keep four. *)
Lemma extractive_selection_not_ceil :
  let quality_sents :=
    List.filter is_quality (Reference.sent_tokenize Samples.eight_sentences) in
  let score i := inject_Z (Z.of_nat (Str.len (nth i quality_sents ""))) in
  List.length quality_sents = 8
  /\ value (extractive_summary (H := Reference.capabilities)
             Samples.eight_sentences (2 # 5) (init "cpu" None))
     = Some (Str.join " " (select_top quality_sents score (2 # 5)))
  /\ List.length (select_top quality_sents score (2 # 5)) = 3
  /\ ceil_selection_count 8 = 4
  /\ List.length (select_top quality_sents score (2 # 5))
     <> ceil_selection_count (List.length quality_sents).
Proof. vm_compute. repeat split. discriminate. Qed.

Lemma extractive_summary_selection_witness :
  exists (selected : list string),
    value (extractive_summary (H := Reference.capabilities)
             Samples.eight_sentences (2 # 5) (init "cpu" None))
    = Some (Str.join " " selected)
    /\ List.length selected = 3.
Proof.
  destruct (extractive_summary_selection (H := Reference.capabilities)
              Samples.eight_sentences (init "cpu" None)
              (Str.join " "
                 ["We then preprocess it with a standard tokenizer pipeline.";
                  "The learning rate decays linearly over the last epochs.";
                  "Finally we evaluate results on the held-out test split."]))
    as (selected & idx & Hout & Hlen & _).
  - vm_compute. lia.
  - vm_compute. lia.
  - vm_compute. reflexivity.
  - exists ["We then preprocess it with a standard tokenizer pipeline.";
            "The learning rate decays linearly over the last epochs.";
            "Finally we evaluate results on the held-out test split."].
    split; [vm_compute; reflexivity | reflexivity].
Defined.

Lemma extractive_summary_passthrough_witness :
  value (extractive_summary (H := Reference.capabilities)
           "Too short. To summarize." (2 # 5) (init "cpu" None))
  = Some "Too short. To summarize.".
Proof.
  apply (extractive_summary_passthrough (H := Reference.capabilities)).
  left. vm_compute. lia.
Defined.

Lemma summarize_section_short_circuit_witness :
  List.length (Str.split (preprocess_text Samples.forty_words)) = 40
  /\ summarize_section (H := Reference.capabilities)
       Samples.forty_words "introduction" (init "cpu" None)
     = {| log := []; final := init "cpu" None;
          value := Some (preprocess_text Samples.forty_words, []) |}.
Proof.
  split; [vm_compute; reflexivity|].
  apply (summarize_section_short_circuit (H := Reference.capabilities)).
  vm_compute. lia.
Defined.


End SelectionFacts.

(** ** Runs over several sections *)

Section RunFacts.
Import HierarchicalSummarizer Spec.

Section WithCapabilities.
Context `{Capabilities}.

(** The entry condition of [summarize_section_residency] holds after
    [__init__] and is kept by the loop of [summarize_paper]. *)
Lemma summarize_sections_triple (sections : list (string * string)) :
  triple no_summarizer (summarize_sections sections)
    residency_discipline (fun _ => no_summarizer) (fun s => ~ both_resident s).
Proof.
  induction sections as [|[section_name section_text] rest IH]; simpl.
  - apply triple_ret. auto.
  - destruct (negb _ && negb _); [|exact IH].
    eapply triple_bind; [apply summarize_section_triple|]. intros r.
    eapply triple_bind; [exact IH|]. intros rs.
    apply triple_ret. auto.
Qed.

Lemma summarize_sections_residency (dev : string) (kw : option KeywordModel)
    (sections : list (string * string)) :
  Forall (fun entry : Event * State => ~ both_resident entry.2)
    (log (summarize_sections sections (init dev kw))).
Proof.
  destruct (summarize_sections_triple sections (init dev kw) eq_refl) as [Hlog _].
  eapply Forall_impl; [exact Hlog|]. intros entry (Hnb & _). exact Hnb.
Qed.

Lemma returns_bind {A B} (m : M A) (f : A -> M B) s a s1 b s2 :
  returns m s a s1 -> returns (f a) s1 b s2 -> returns (bind m f) s b s2.
Proof.
  intros [Hv Hf] [Hv' Hf']. unfold returns, bind. rewrite Hv; simpl.
  rewrite Hf. auto.
Qed.

Lemma returns_ret {A} (a : A) s : returns (ret a) s a s.
Proof. split; reflexivity. Qed.

Lemma returns_get s : returns get s s s.
Proof. split; reflexivity. Qed.

Lemma returns_event e update s : returns (event e update) s tt (update s).
Proof. split; reflexivity. Qed.

Lemma returns_lift {A} (o : option A) a s : o = Some a -> returns (lift o) s a s.
Proof. intros ->. split; reflexivity. Qed.

Lemma returns_try_except {A} (m handler : M A) s a s' :
  returns m s a s' -> returns (try_except m handler) s a s'.
Proof.
  intros [Hv Hf]. unfold returns, try_except. rewrite Hv. auto.
Qed.

Lemma _load_sentence_encoder_returns (s : State) (tok : Tokenizer) (enc : Model) :
  sentence_encoder s = None ->
  tokenizer_from_pretrained encoder_name = Some tok ->
  from_pretrained_optimized encoder_name (device s) = Some enc ->
  returns _load_sentence_encoder s tt
    (set_sentence_encoder (Some enc) (set_tokenizer (Some tok) s)).
Proof.
  intros Henc Htok Hmodel. unfold _load_sentence_encoder.
  eapply returns_bind; [apply returns_get|]. rewrite Henc. unfold load_pair.
  eapply returns_bind; [apply returns_get|].
  eapply returns_bind; [apply returns_lift, Htok|].
  eapply returns_bind; [apply returns_event|].
  apply returns_try_except.
  eapply returns_bind; [apply returns_lift, Hmodel|].
  apply returns_event.
Qed.

(** On an object with no encoder loaded, when the tokenizer and the model
    load at the first attempt and the scoring succeeds, the extractive stage
    returns the selection. *)
Lemma extractive_summary_returns (text : string) (ratio : Q) (s0 : State)
    (tok : Tokenizer) (enc : Model) (score : nat -> Q) :
  3 <= List.length (sent_tokenize text) ->
  List.filter is_quality (sent_tokenize text) <> [] ->
  sentence_encoder s0 = None ->
  tokenizer_from_pretrained encoder_name = Some tok ->
  from_pretrained_optimized encoder_name (device s0) = Some enc ->
  similarity_scores tok enc (List.filter is_quality (sent_tokenize text)) = Some score ->
  value (extractive_summary text ratio s0)
  = Some (Str.join " "
            (select_top (List.filter is_quality (sent_tokenize text)) score ratio)).
Proof.
  intros Hsent Hq Henc Htok Hmodel Hscore.
  unfold extractive_summary.
  destruct (Nat.ltb_spec (List.length (sent_tokenize text)) 3); [lia|].
  remember (List.filter is_quality (sent_tokenize text)) as quality_sents eqn:Eq.
  destruct quality_sents as [|q qs]; [congruence|].
  eapply proj1.
  eapply returns_bind; [apply returns_event|].
  eapply returns_bind;
    [apply (_load_sentence_encoder_returns _ tok enc); assumption|].
  eapply returns_bind; [apply returns_get|].
  eapply returns_bind; [apply returns_lift; reflexivity|].
  eapply returns_bind; [apply returns_lift; reflexivity|].
  eapply returns_bind; [apply returns_event|].
  eapply returns_bind; [apply returns_lift, Hscore|].
  apply returns_ret.
Qed.

End WithCapabilities.


End RunFacts.

(** ** More on strings *)

Lemma Str_rev_onto_app (s acc : string) : Str.rev_onto s acc = Str.rev s +:+ acc.
Proof.
  unfold Str.rev. revert acc.
  induction s as [|c s IH]; intros acc; simpl; [reflexivity|].
  rewrite IH, (IH (String c "")), Str_app_assoc. reflexivity.
Qed.

Lemma Str_rev_cons (c : ascii) (s : string) : Str.rev (String c s) = Str.rev s +:+ String c "".
Proof. unfold Str.rev at 1. simpl. apply Str_rev_onto_app. Qed.

Lemma Str_rev_app (s t : string) : Str.rev (s +:+ t) = Str.rev t +:+ Str.rev s.
Proof.
  induction s as [|c s IH].
  - simpl. now rewrite Str_app_empty_r.
  - rewrite Str_app_cons, !Str_rev_cons, IH, Str_app_assoc. reflexivity.
Qed.

Lemma Str_rev_involutive (s : string) : Str.rev (Str.rev s) = s.
Proof.
  induction s as [|c s IH]; [reflexivity|].
  rewrite Str_rev_cons, Str_rev_app, IH. reflexivity.
Qed.

Lemma Str_len_rev (s : string) : Str.len (Str.rev s) = Str.len s.
Proof.
  induction s as [|c s IH]; [reflexivity|].
  rewrite Str_rev_cons, Str_len_app, IH. unfold Str.len; simpl. lia.
Qed.

Lemma Str_startswith_app (p t : string) : Str.startswith (p +:+ t) p = true.
Proof.
  induction p as [|c p IH]; [change ("" +:+ t) with t; destruct t; reflexivity|].
  rewrite Str_app_cons. simpl. unfold Char.eqb. rewrite Ascii.eqb_refl. exact IH.
Qed.

Lemma Str_startswith_inv (s p : string) :
  Str.startswith s p = true -> exists t, s = p +:+ t.
Proof.
  revert s; induction p as [|c p IH]; intros s Hs.
  - exists s. reflexivity.
  - destruct s as [|d s]; simpl in Hs; [discriminate|]. unfold Char.eqb in Hs.
    apply andb_true_iff in Hs as [Hc Hs]. apply Ascii.eqb_eq in Hc as ->.
    destruct (IH s Hs) as [t ->]. exists t. reflexivity.
Qed.

Lemma Str_endswith_app (s p : string) : Str.endswith (s +:+ p) p = true.
Proof. unfold Str.endswith. rewrite Str_rev_app. apply Str_startswith_app. Qed.

Lemma Str_take_drop (n : nat) (s : string) : Str.take n s +:+ Str.drop n s = s.
Proof.
  revert s; induction n as [|n IH]; intros [|c s]; simpl; try reflexivity.
  rewrite Str_app_cons, IH. reflexivity.
Qed.

Lemma Str_len_map (f : ascii -> ascii) (s : string) : Str.len (Str.map f s) = Str.len s.
Proof. unfold Str.len; induction s as [|c s IH]; simpl; [reflexivity | now rewrite IH]. Qed.

(** ** More on flowcharts *)

Section FlowchartLaws.
Import FlowchartGenerator Spec Laws.

Lemma candidate_step_spec (sent step key : string) :
  candidate_step sent = Some (step, key) <->
  qualifies sent /\ step = step_of (Str.strip sent) /\ key = step_key step.
Proof.
  unfold candidate_step, qualifies, step_of, step_key; cbv zeta.
  remember (Str.take 120 (Str.strip sent)) as t eqn:Et.
  destruct (Nat.ltb_spec 30 (Str.len (Str.strip sent))) as [H30|H30]; cbn [andb negb].
  2: { split; [discriminate | intros [[? _] _]; lia]. }
  destruct (Nat.ltb_spec (Str.len (Str.strip sent)) 200) as [H200|H200]; cbn [andb negb].
  2: { split; [discriminate | intros [[? _] _]; lia]. }
  destruct (existsb _ PROCESS_INDICATORS || existsb _ PROCESS_VERBS).
  2: { split; [discriminate | intros [[_ ?] _]; discriminate]. }
  destruct (Str.endswith t "."); cbn [negb].
  - split.
    + intros [= <- <-]. repeat split; auto.
    + intros (_ & -> & ->). reflexivity.
  - split.
    + intros [= <- <-]. repeat split; auto.
    + intros (_ & -> & ->). reflexivity.
Qed.

Lemma step_of_endswith (sent_clean : string) :
  Str.endswith (step_of sent_clean) "." = true.
Proof.
  unfold step_of; cbv zeta.
  destruct (Str.endswith (Str.take 120 sent_clean) ".") eqn:He; [exact He|].
  change "..." with (".." +:+ "."). rewrite <- Str_app_assoc.
  apply Str_endswith_app.
Qed.

Lemma step_of_length (sent_clean : string) :
  30 < Str.len sent_clean -> 31 <= Str.len (step_of sent_clean) <= 123.
Proof.
  intros Hlen. unfold step_of; cbv zeta.
  pose proof (Str_len_take 120 sent_clean) as Ht.
  destruct (Str.endswith _ _).
  - lia.
  - rewrite Str_len_app, Ht. change (Str.len "...") with 3. lia.
Qed.

(** What the loop keeps: fewer than six steps while it runs, [seen] holding
    exactly the keys of the steps, which are pairwise distinct, and every
    step made of a qualifying sentence already met. *)
Lemma steps_loop_inv (all : list string) (sentences : list string) :
  forall (steps : list string) (seen : gset string),
    (forall sent, sent ∈ sentences -> sent ∈ all) ->
    List.length steps < 6 ->
    (forall k, k ∈ seen <-> k ∈ map step_key steps) ->
    NoDup (map step_key steps) ->
    Forall (fun st => exists sent, sent ∈ all /\ qualifies sent
                                   /\ st = step_of (Str.strip sent)) steps ->
    let result := steps_loop sentences steps seen in
    List.length result <= 6
    /\ NoDup (map step_key result)
    /\ Forall (fun st => exists sent, sent ∈ all /\ qualifies sent
                                      /\ st = step_of (Str.strip sent)) result
    /\ (List.length result < 6 ->
        forall sent, sent ∈ sentences -> qualifies sent ->
          step_key (step_of (Str.strip sent)) ∈ map step_key result)
    /\ (forall k, k ∈ map step_key steps -> k ∈ map step_key result).
Proof.
  induction sentences as [|sent rest IH]; intros steps seen Hall Hlen Hseen Hnd Hfrom;
    cbn [steps_loop]; cbv zeta.
  - split; [lia|]. split; [exact Hnd|]. split; [exact Hfrom|].
    split; [intros _ s Hs; inversion Hs | auto].
  - assert (forall s, s ∈ rest -> s ∈ all) as Hall'.
    { intros s Hs. apply Hall. now apply list_elem_of_further. }
    destruct (candidate_step sent) as [[step key]|] eqn:Hcand.
    + apply candidate_step_spec in Hcand as (Hq & Hstep & Hkey).
      destruct (bool_decide (key ∉ seen)) eqn:Hfresh.
      * apply bool_decide_eq_true in Hfresh.
        assert (NoDup (map step_key (steps ++ [step]))) as Hnd'.
        { rewrite map_app. apply NoDup_app.
          split; [exact Hnd|]. split; [|apply NoDup_singleton].
          intros k Hk Hk'. simpl in Hk'. apply list_elem_of_singleton in Hk'.
          subst k. apply Hfresh. rewrite Hkey. now apply Hseen. }
        assert (Forall (fun st => exists sent, sent ∈ all /\ qualifies sent
                                   /\ st = step_of (Str.strip sent)) (steps ++ [step]))
          as Hfrom'.
        { apply Forall_app. split; [exact Hfrom|]. constructor; [|constructor].
          exists sent. split; [apply Hall, list_elem_of_here|].
          split; [exact Hq | exact Hstep]. }
        assert (step_key step ∈ map step_key (steps ++ [step])) as Hin.
        { rewrite map_app. apply elem_of_app. right. simpl. apply list_elem_of_here. }
        destruct (Nat.leb_spec 6 (List.length (steps ++ [step]))) as [Hfull|Hroom].
        -- rewrite length_app in Hfull; simpl in Hfull.
           split; [rewrite length_app; simpl; lia|].
           split; [exact Hnd'|]. split; [exact Hfrom'|].
           split; [intros Hr; rewrite length_app in Hr; simpl in Hr; lia|].
           intros k Hk. rewrite map_app. apply elem_of_app. now left.
        -- destruct (IH (steps ++ [step]) (seen ∪ {[key]})) as (Hl & Hn & Hf & Hc & Hm);
             auto.
           { intros k. rewrite elem_of_union, elem_of_singleton, map_app, elem_of_app.
             rewrite Hseen. simpl. rewrite list_elem_of_singleton, Hkey. tauto. }
           split; [exact Hl|]. split; [exact Hn|]. split; [exact Hf|]. split.
           ++ intros Hr s Hs Hqs. apply elem_of_cons in Hs as [->|Hs].
              ** apply Hm. rewrite <- Hstep. exact Hin.
              ** now apply Hc.
           ++ intros k Hk. apply Hm. rewrite map_app. apply elem_of_app. now left.
      * apply bool_decide_eq_false in Hfresh.
        assert (key ∈ seen) as Hk by (destruct (decide (key ∈ seen)); tauto).
        destruct (IH steps seen) as (Hl & Hn & Hf & Hc & Hm); auto.
        split; [exact Hl|]. split; [exact Hn|]. split; [exact Hf|].
        split; [|exact Hm].
        intros Hr s Hs Hqs. apply elem_of_cons in Hs as [->|Hs].
        -- apply Hm. rewrite <- Hstep, <- Hkey. now apply Hseen.
        -- now apply Hc.
    + destruct (IH steps seen) as (Hl & Hn & Hf & Hc & Hm); auto.
      split; [exact Hl|]. split; [exact Hn|]. split; [exact Hf|].
      split; [|exact Hm].
      intros Hr s Hs Hqs. apply elem_of_cons in Hs as [->|Hs]; [|now apply Hc].
      exfalso.
      assert (candidate_step sent = Some (step_of (Str.strip sent),
                                          step_key (step_of (Str.strip sent)))) as Hsome.
      { apply candidate_step_spec. auto. }
      congruence.
Qed.

Lemma _extract_steps_inv (sentences : list string) :
  let steps := _extract_steps sentences in
  List.length steps <= 6
  /\ NoDup (map step_key steps)
  /\ Forall (fun st => exists sent, sent ∈ take 20 sentences /\ qualifies sent
                                    /\ st = step_of (Str.strip sent)) steps
  /\ (List.length steps < 6 ->
      forall sent, sent ∈ take 20 sentences -> qualifies sent ->
        step_key (step_of (Str.strip sent)) ∈ map step_key steps).
Proof.
  destruct (steps_loop_inv (take 20 sentences) (take 20 sentences) [] ∅)
    as (Hl & Hn & Hf & Hc & _); simpl; auto; try lia.
  - intros k. split; [set_solver | intros Hk; inversion Hk].
  - constructor.
Qed.

(** X1: At most six steps, whatever the number of sentences. *)
Theorem _extract_steps_at_most_six (sentences : list string) :
  List.length (_extract_steps sentences) <= 6.
Proof. apply _extract_steps_inv. Qed.

(** X2: No two steps share the lowercased first 40 characters; in particular no
    step is repeated. *)
Theorem _extract_steps_distinct (sentences : list string) :
  NoDup (map step_key (_extract_steps sentences))
  /\ NoDup (_extract_steps sentences).
Proof.
  pose proof (_extract_steps_inv sentences) as (_ & Hnd & _). split; [exact Hnd|].
  eapply NoDup_fmap_1. exact Hnd.
Qed.

(** X3: Every step is made of one of the first 20 sentences, one that qualifies;
    it ends with a full stop and has at least 31 characters. *)
Theorem _extract_steps_origin (sentences : list string) :
  Forall (fun st =>
            (exists sent, sent ∈ take 20 sentences /\ qualifies sent
                          /\ st = step_of (Str.strip sent))
            /\ Str.endswith st "." = true
            /\ 31 <= Str.len st)
    (_extract_steps sentences).
Proof.
  pose proof (_extract_steps_inv sentences) as (_ & _ & Hf & _).
  eapply Forall_impl; [exact Hf|]. intros st (sent & Hin & Hq & ->).
  split; [eauto|]. split; [apply step_of_endswith|].
  apply step_of_length. apply Hq.
Qed.

(** X4: Below the cap nothing is lost: when fewer than six steps come out, every
    qualifying sentence among the first 20 has its key among the steps. *)
Theorem _extract_steps_complete (sentences : list string) (sent : string) :
  List.length (_extract_steps sentences) < 6 ->
  sent ∈ take 20 sentences ->
  qualifies sent ->
  step_key (step_of (Str.strip sent)) ∈ map step_key (_extract_steps sentences).
Proof.
  intros Hlen Hin Hq.
  pose proof (_extract_steps_inv sentences) as (_ & _ & _ & Hc). now apply Hc.
Qed.

End FlowchartLaws.

Section MermaidLaws.
Import FlowchartGenerator Spec Laws.

Lemma concat_empty_cons (x : string) (l : list string) :
  String.concat "" (x :: l) = x +:+ String.concat "" l.
Proof.
  destruct l as [|y l]; simpl.
  - now rewrite Str_app_empty_r.
  - reflexivity.
Qed.

Lemma concat_empty_app (l1 l2 : list string) :
  String.concat "" (l1 ++ l2) = String.concat "" l1 +:+ String.concat "" l2.
Proof.
  induction l1 as [|x l1 IH].
  - reflexivity.
  - change ((x :: l1) ++ l2) with (x :: (l1 ++ l2)).
    rewrite !concat_empty_cons, IH, Str_app_assoc. reflexivity.
Qed.

Lemma node_line_render (i : nat) (step : string) :
  node_line i step = render_node (Step (step_id (i + 1)) (sanitize step)).
Proof. reflexivity. Qed.

Lemma edge_line_render (i : nat) :
  edge_line i = render_edge (step_id (i + 1), step_id (i + 2)).
Proof.
  unfold edge_line, render_edge, step_id; simpl fst; simpl snd.
  rewrite !Str_app_assoc. reflexivity.
Qed.

Lemma map_render_imap (steps : list string) :
  map render_node (imap (fun i step => Step (step_id (i + 1)) (sanitize step)) steps)
  = imap node_line steps.
Proof.
  change (render_node <$> imap (fun i step => Step (step_id (i + 1)) (sanitize step)) steps
          = imap node_line steps).
  rewrite fmap_imap. apply imap_ext. intros i x _. reflexivity.
Qed.

(** The text built by [_build_mermaid] is the chain over the steps. *)
Lemma _build_mermaid_linear (steps : list string) :
  _build_mermaid steps = render (linear_graph steps).
Proof.
  unfold _build_mermaid, render, linear_graph; cbv zeta.
  cbn [nodes edges map].
  rewrite !map_app, !concat_empty_cons, !concat_empty_app. cbn [map].
  rewrite !concat_empty_cons.
  rewrite map_render_imap.
  rewrite map_map.
  rewrite (map_ext edge_line (fun i => render_edge (step_id (i + 1), step_id (i + 2))))
    by (intros i; apply edge_line_render).
  unfold render_node, render_edge, step_id; simpl fst; simpl snd.
  change (String.concat "" []) with "".
  rewrite !Str_app_assoc, ?Str_app_empty_r. reflexivity.
Qed.

Section WithTokenizer.
Variable sent_tokenize : string -> list string.

(** X5: A flowchart that is produced is the chain Start, S1, ..., Sn, End over
    between two and six steps: n + 2 nodes and n + 1 edges. *)
Theorem generate_flowchart_chain (text mermaid : string) :
  generate_flowchart sent_tokenize text = Some mermaid ->
  let steps := _extract_steps (sent_tokenize text) in
  2 <= List.length steps <= 6
  /\ mermaid = render (linear_graph steps)
  /\ List.length (nodes (linear_graph steps)) = List.length steps + 2
  /\ List.length (edges (linear_graph steps)) = List.length steps + 1.
Proof.
  intros Hm steps.
  pose proof (_extract_steps_inv (sent_tokenize text)) as [Hmax _]. fold steps in Hmax.
  unfold generate_flowchart in Hm.
  destruct (_ <? 100); [discriminate|].
  destruct (_ <? 3); [discriminate|].
  fold steps in Hm.
  destruct (Nat.ltb_spec (List.length steps) 2) as [|Hmin]; [discriminate|].
  injection Hm as <-.
  split; [lia|]. split; [apply _build_mermaid_linear|].
  unfold linear_graph; cbn [nodes edges]. cbn [List.length].
  rewrite !length_app, length_imap, length_map, length_seq. cbn [List.length]. lia.
Qed.
End WithTokenizer.

Lemma replace_char_absent (a b : ascii) (s : string) :
  a <> b ->
  Forall (fun c => c <> a) (list_ascii_of_string (Str.replace_char a b s)).
Proof.
  intros Hab. unfold Str.replace_char.
  induction s as [|c s IH]; simpl; constructor; [|exact IH].
  unfold Char.eqb. destruct (Ascii.eqb_spec c a); congruence.
Qed.

Lemma replace_char_keeps (a b x : ascii) (s : string) :
  x <> b ->
  Forall (fun c => c <> x) (list_ascii_of_string s) ->
  Forall (fun c => c <> x) (list_ascii_of_string (Str.replace_char a b s)).
Proof.
  intros Hxb. unfold Str.replace_char.
  induction s as [|c s IH]; simpl; intros Hall; [constructor|].
  apply Forall_cons in Hall as [Hc Hall]. constructor; [|now apply IH].
  unfold Char.eqb. destruct (Ascii.eqb_spec c a); congruence.
Qed.

(** X6: The label written into a node has the length of the step and holds
    neither a double quote nor a line feed, so it cannot close the quoted
    label or break the line of its node. *)
Theorem node_label_clean (i : nat) (step : string) :
  node_line i step = render_node (Step (step_id (i + 1)) (sanitize step))
  /\ Str.len (sanitize step) = Str.len step
  /\ Forall (fun c => c <> Char.quote /\ c <> Char.newline)
       (list_ascii_of_string (sanitize step)).
Proof.
  split; [reflexivity|]. split.
  - unfold sanitize, Str.replace_char. now rewrite !Str_len_map.
  - unfold sanitize.
    assert (Forall (fun c => c <> Char.quote)
              (list_ascii_of_string
                 (Str.replace_char Char.newline " "
                    (Str.replace_char Char.quote "'" step)))) as Hq.
    { apply replace_char_keeps; [discriminate|].
      apply replace_char_absent. discriminate. }
    assert (Forall (fun c => c <> Char.newline)
              (list_ascii_of_string
                 (Str.replace_char Char.newline " "
                    (Str.replace_char Char.quote "'" step)))) as Hn.
    { apply replace_char_absent. discriminate. }
    rewrite Forall_forall in *. intros c Hc. split; auto.
Qed.

End MermaidLaws.

(** ** The matcher only moves forward *)

Section MatcherLaws.
Import Re Laws.

Lemma suffix_of_refl (s : string) : suffix_of s s.
Proof. exists "". reflexivity. Qed.

Lemma suffix_of_trans (a b c : string) : suffix_of a b -> suffix_of b c -> suffix_of a c.
Proof.
  intros [p ->] [q ->]. exists (q +:+ p). now rewrite Str_app_assoc.
Qed.

Lemma suffix_of_tail (c : ascii) (s : string) : suffix_of s (String c s).
Proof. exists (String c ""). reflexivity. Qed.

Lemma suffix_of_len (a b : string) : suffix_of a b -> Str.len a <= Str.len b.
Proof. intros [p ->]. rewrite Str_len_app. lia. Qed.

Lemma match_str_suffix {A} (ci : bool) (p : string) :
  forall prev s (k : option ascii -> string -> option A) x,
    match_str ci p prev s k = Some x ->
    exists prev' s', suffix_of s' s /\ k prev' s' = Some x.
Proof.
  induction p as [|c p IH]; intros prev s k x Hm; simpl in Hm.
  - exists prev, s. split; [apply suffix_of_refl | exact Hm].
  - destruct s as [|d s]; [discriminate|].
    destruct (chr_matches ci c d); [|discriminate].
    destruct (IH _ _ _ _ Hm) as (prev' & s' & Hs & Hk).
    exists prev', s'. split; [|exact Hk].
    eapply suffix_of_trans; [exact Hs | apply suffix_of_tail].
Qed.

(** Whatever the pattern, the continuation is only ever run on what is left
    of the subject. *)
Lemma rmatch_suffix {A} (ci : bool) (r : regex) :
  forall prev s (k : option ascii -> string -> option A) x,
    rmatch ci r prev s k = Some x ->
    exists prev' s', suffix_of s' s /\ k prev' s' = Some x.
Proof.
  induction r as [| p | items | r1 IH1 r2 IH2 | r1 IH1 r2 IH2 | r1 IH1 | |];
    intros prev s k x Hm; cbn [rmatch] in Hm.
  - exists prev, s. split; [apply suffix_of_refl | exact Hm].
  - eapply match_str_suffix; exact Hm.
  - destruct s as [|c s]; [discriminate|].
    destruct (cls_matches ci items c); [|discriminate].
    exists (Some c), s. split; [apply suffix_of_tail | exact Hm].
  - destruct (IH1 _ _ _ _ Hm) as (prev1 & s1 & Hs1 & Hm1).
    destruct (IH2 _ _ _ _ Hm1) as (prev2 & s2 & Hs2 & Hk).
    exists prev2, s2. split; [|exact Hk]. eapply suffix_of_trans; eauto.
  - destruct (rmatch ci r1 prev s k) as [y|] eqn:H1.
    + injection Hm as ->. eapply IH1; exact H1.
    + eapply IH2; exact Hm.
  - revert Hm. generalize (Str.len s) at 1 as fuel. intros fuel. revert prev s.
    induction fuel as [|fuel IHf]; intros prev s Hm.
    + exists prev, s. split; [apply suffix_of_refl | exact Hm].
    + match type of Hm with
      | match ?m with Some _ => _ | None => _ end = _ => destruct m as [y|] eqn:H1
      end.
      * injection Hm as ->.
        destruct (IH1 _ _ _ _ H1) as (prev1 & s1 & Hs1 & Hloop).
        destruct (Str.len s1 <? Str.len s); [|discriminate].
        destruct (IHf _ _ Hloop) as (prev2 & s2 & Hs2 & Hk).
        exists prev2, s2. split; [|exact Hk]. eapply suffix_of_trans; eauto.
      * exists prev, s. split; [apply suffix_of_refl | exact Hm].
  - destruct prev; [discriminate|].
    exists None, s. split; [apply suffix_of_refl | exact Hm].
  - destruct (xorb _ _); [|discriminate].
    exists prev, s. split; [apply suffix_of_refl | exact Hm].
Qed.

Lemma match_here_spec (p : pattern) (prev : option ascii) (s m : string)
    (prev' : option ascii) (rest : string) :
  match_here p prev s = Some (m, prev', rest) ->
  suffix_of rest s /\ s = m +:+ rest.
Proof.
  unfold match_here. intros Hm.
  apply rmatch_suffix in Hm as (prev1 & s1 & Hs & Heq).
  injection Heq as <- <- <-. split; [exact Hs|].
  destruct Hs as [pre ->].
  rewrite Str_len_app. replace (Str.len pre + Str.len s1 - Str.len s1) with (Str.len pre) by lia.
  assert (Str.take (Str.len pre) (pre +:+ s1) = pre) as ->; [|reflexivity].
  clear. induction pre as [|c pre IH]; [destruct s1; reflexivity|].
  rewrite Str_app_cons. unfold Str.len in *. simpl. now rewrite IH.
Qed.

Lemma occurs_in_suffix (e s' s : string) : occurs_in e s' -> suffix_of s' s -> occurs_in e s.
Proof.
  intros (pre & post & ->) [q ->]. exists (q +:+ pre), post.
  now rewrite Str_app_assoc.
Qed.

Lemma occurs_in_trans (a b c : string) : occurs_in a b -> occurs_in b c -> occurs_in a c.
Proof.
  intros (p1 & q1 & ->) (p2 & q2 & ->). exists (p2 +:+ p1), (q1 +:+ q2).
  now rewrite !Str_app_assoc.
Qed.

(** Every match reported by [finditer] is a piece of the subject. *)
Lemma finditer_from_occurs (p : pattern) (fuel : nat) :
  forall prev s m, m ∈ finditer_from fuel p prev s -> occurs_in m s.
Proof.
  induction fuel as [|fuel IH]; intros prev s m Hm; cbn [finditer_from] in Hm.
  - inversion Hm.
  - assert (forall c s', s = String c s' ->
              m ∈ finditer_from fuel p (Some c) s' -> occurs_in m s) as Hskip.
    { intros c s' -> Hin. eapply occurs_in_suffix; [eapply IH; exact Hin|].
      apply suffix_of_tail. }
    destruct (match_here p prev s) as [[[m0 prev'] rest]|] eqn:Hhere.
    + apply match_here_spec in Hhere as [Hsuf Heq].
      assert (occurs_in m0 s) as Hm0.
      { exists "", rest. exact Heq. }
      destruct m0 as [|c0 m0'].
      * apply elem_of_cons in Hm as [->|Hm]; [exact Hm0|].
        destruct s as [|c s']; [inversion Hm|]. eapply Hskip; eauto.
      * apply elem_of_cons in Hm as [->|Hm]; [exact Hm0|].
        eapply occurs_in_suffix; [eapply IH; exact Hm | exact Hsuf].
    + destruct s as [|c s']; [inversion Hm|]. eapply Hskip; eauto.
Qed.

Lemma finditer_occurs (p : pattern) (s m : string) :
  m ∈ finditer p s -> occurs_in m s.
Proof. apply finditer_from_occurs. Qed.

End MatcherLaws.

(** ** Stripping, containment and counting *)

Section StripLaws.
Import Laws.

Lemma lstrip_suffix (s : string) : suffix_of (Str.lstrip s) s.
Proof.
  induction s as [|c s IH]; simpl; [apply suffix_of_refl|].
  destruct (Char.isspace c); [|apply suffix_of_refl].
  eapply suffix_of_trans; [exact IH | apply suffix_of_tail].
Qed.

Lemma lstrip_first (s : string) (c : ascii) (s' : string) :
  Str.lstrip s = String c s' -> Char.isspace c = false.
Proof.
  induction s as [|d s IH]; simpl; [discriminate|].
  destruct (Char.isspace d) eqn:Hd; [exact IH|].
  intros [= <- _]. exact Hd.
Qed.

Lemma rstrip_prefix (s : string) : exists post, s = Str.rstrip s +:+ post.
Proof.
  unfold Str.rstrip. destruct (lstrip_suffix (Str.rev s)) as [pre Hpre].
  exists (Str.rev pre).
  rewrite <- Str_rev_app, <- Hpre. now rewrite Str_rev_involutive.
Qed.

Lemma strip_occurs (s : string) : occurs_in (Str.strip s) s.
Proof.
  unfold Str.strip. destruct (lstrip_suffix s) as [pre Hpre].
  destruct (rstrip_prefix (Str.lstrip s)) as [post Hpost].
  exists pre, post. rewrite <- Hpost. exact Hpre.
Qed.

Lemma strip_trimmed (s : string) : trimmed (Str.strip s).
Proof.
  unfold trimmed, Str.strip, Str.rstrip. split.
  - intros c s' Heq.
    destruct (lstrip_suffix (Str.rev (Str.lstrip s))) as [pre Hpre].
    assert (Str.lstrip s = String c (s' +:+ Str.rev pre)) as Hl.
    { rewrite <- (Str_rev_involutive (Str.lstrip s)), Hpre, Str_rev_app, Heq.
      reflexivity. }
    eapply lstrip_first. exact Hl.
  - intros c s'. rewrite Str_rev_involutive. apply lstrip_first.
Qed.

Lemma contains_startswith (s p : string) :
  Str.startswith s p = true -> Str.contains s p = true.
Proof. intros Hs. destruct s; cbn [Str.contains]; rewrite Hs; reflexivity. Qed.

Lemma contains_occurs (e s : string) : occurs_in e s -> Str.contains s e = true.
Proof.
  intros (pre & post & ->). induction pre as [|c pre IH].
  - change ("" +:+ e +:+ post) with (e +:+ post).
    apply contains_startswith, Str_startswith_app.
  - rewrite Str_app_cons. cbn [Str.contains]. rewrite IH. apply orb_true_r.
Qed.

Lemma count_from_positive (e : string) (fuel : nat) :
  forall s, Str.contains s e = true -> Str.len s < fuel ->
            1 <= Str.count_from fuel s e.
Proof.
  induction fuel as [|fuel IH]; intros s Hc Hlen; [lia|].
  cbn [Str.count_from].
  destruct (Str.startswith s e) eqn:Hs; [lia|].
  destruct s as [|c s]; cbn [Str.contains] in Hc; rewrite Hs in Hc; simpl in Hc;
    [discriminate|].
  apply IH; [exact Hc|]. unfold Str.len in *. simpl in Hlen. lia.
Qed.

(** [e in s] exactly when [s.count(e)] is positive. *)
Lemma count_positive (s e : string) :
  Str.contains s e = true -> 1 <= Str.count s e.
Proof.
  intros Hc. unfold Str.count. destruct e; [lia|].
  apply count_from_positive; [exact Hc | lia].
Qed.

End StripLaws.

(** ** More on entities *)

Section EntityLaws.
Import EnhancedEntityExtractor Spec Laws.

(** A property of the stripped matches holds of every member of the sets
    the pattern pass builds. *)
Lemma scan_patterns_members (text : string) (table : list (string * list Re.pattern))
    (P : string -> Prop) :
  (forall p m, m ∈ Re.finditer p text -> P (Str.strip m)) ->
  forall k X e, scan_patterns text table !! k = Some X -> e ∈ X -> P e.
Proof.
  intros HP. unfold scan_patterns.
  apply (foldl_invariant
           (fun ents : gmap string (gset string) =>
              forall k X e, ents !! k = Some X -> e ∈ X -> P e)).
  - intros k X e Hk. rewrite lookup_empty in Hk. discriminate.
  - intros ents [entity_type patterns] _ Hinv.
    apply foldl_invariant; [exact Hinv|].
    intros ents' p _ Hinv'. unfold scan_matches.
    apply foldl_invariant; [exact Hinv'|].
    intros b m Hm Hb. destruct (_validate_entity _ _ _); [|exact Hb].
    intros k X e. unfold add_entity.
    destruct (decide (entity_type = k)) as [<-|Hne].
    + rewrite lookup_insert_eq. intros [= <-] He.
      apply elem_of_union in He as [He|He].
      * destruct (b !! entity_type) as [Y|] eqn:HY; simpl in He.
        -- eapply Hb; eauto.
        -- set_solver.
      * apply elem_of_singleton in He as ->. apply (HP p). exact Hm.
    + rewrite lookup_insert_ne by exact Hne. apply Hb.
Qed.

Lemma extract_entities_members (text : string) (P : string -> Prop) :
  (forall p m, m ∈ Re.finditer p text -> P (Str.strip m)) ->
  forall k l e, extract_entities text !! k = Some l -> e ∈ l -> P e.
Proof.
  intros HP k l e Hl He.
  apply extract_entities_lookup in Hl as [(X & HX & ->)|[-> _]].
  - eapply scan_patterns_members; [exact HP | exact HX|].
    apply (rank_entities_spec text X). exact He.
  - inversion He.
Qed.

(** X7: Every entity of the bundle is a piece of the text, so that its count in
    the text is at least 1, and it neither starts nor ends with
    whitespace. *)
Theorem extract_entities_occur (text k : string) (l : list string) (e : string) :
  extract_entities text !! k = Some l ->
  e ∈ l ->
  occurs_in e text /\ 1 <= Str.count text e /\ trimmed e.
Proof.
  intros Hl He.
  assert (occurs_in e text) as Ho.
  { revert k l e Hl He. apply extract_entities_members.
    intros p m Hm. eapply occurs_in_trans; [apply strip_occurs|].
    now apply finditer_occurs in Hm. }
  split; [exact Ho|]. split.
  - apply count_positive, contains_occurs, Ho.
  - clear Ho. revert k l e Hl He. apply extract_entities_members.
    intros p m _. apply strip_trimmed.
Qed.

(** X8: No pattern feeds the techniques: that sequence is always empty. *)
Theorem extract_entities_techniques (text : string) :
  extract_entities text !! "techniques" = Some [].
Proof.
  unfold extract_entities, ensure_keys. rewrite ensure_keys_lookup, lookup_fmap.
  destruct (scan_patterns_inv text entity_patterns) as [Hkeys _].
  destruct (scan_patterns text entity_patterns !! "techniques") as [X|] eqn:HX.
  - exfalso. assert ("techniques" ∈ map fst entity_patterns) as Hin by eauto.
    simpl in Hin. set_solver.
  - reflexivity.
Qed.

End EntityLaws.

(** ** More on section grouping *)

Section GroupingLaws.
Import AdvancedSectionExtractor Spec Laws.

(** What the loop adds to each list: pieces of the remaining blocks, in
    their order, none shorter than 20 characters; a list that was not there
    gets at least one piece, and a new key is the current section or the
    match of a block that starts a section. *)
Lemma group_loop_adds (content : list Item) :
  forall (sections : gmap string (list string)) (current_section k : string)
         (l : list string),
    group_loop content sections current_section !! k = Some l ->
    exists extra,
      l = default [] (sections !! k) ++ extra
      /\ sublist extra (map text content)
      /\ Forall (fun t => 20 <= Str.len t) extra
      /\ (sections !! k = None ->
          extra <> []
          /\ (k = current_section
              \/ exists item, item ∈ content /\ starts_section item k)).
Proof.
  induction content as [|item content IH]; intros sections cur k l Hl;
    cbn [group_loop] in Hl; cbv zeta in Hl.
  - exists []. rewrite Hl. simpl. rewrite app_nil_r.
    split; [reflexivity|]. split; [constructor|]. split; [constructor|].
    intros Hn. congruence.
  - assert (forall cur',
              group_loop content sections cur' !! k = Some l ->
              (cur' = cur \/ starts_section item cur') ->
              exists extra,
                l = default [] (sections !! k) ++ extra
                /\ sublist extra (map text (item :: content))
                /\ Forall (fun t => 20 <= Str.len t) extra
                /\ (sections !! k = None ->
                    extra <> []
                    /\ (k = cur \/ exists it, it ∈ item :: content /\ starts_section it k)))
      as Hskip.
    { intros cur' Hl' Hcur'.
      destruct (IH _ _ _ _ Hl') as (extra & -> & Hsub & Hall & Hnew).
      exists extra. split; [reflexivity|].
      split; [now apply sublist_cons|]. split; [exact Hall|].
      intros Hn. destruct (Hnew Hn) as [Hne Hk]. split; [exact Hne|].
      destruct Hk as [->|(it & Hit & Hst)].
      - destruct Hcur' as [->|Hst]; [now left|].
        right. exists item. split; [apply list_elem_of_here | exact Hst].
      - right. exists it. split; [now apply list_elem_of_further | exact Hst]. }
    assert (20 <= Str.len (text item) ->
            group_loop content (append_to sections cur (text item)) cur !! k = Some l ->
            exists extra,
              l = default [] (sections !! k) ++ extra
              /\ sublist extra (map text (item :: content))
              /\ Forall (fun t => 20 <= Str.len t) extra
              /\ (sections !! k = None ->
                  extra <> []
                  /\ (k = cur \/ exists it, it ∈ item :: content /\ starts_section it k)))
      as Hadd.
    { intros Hlen Hl'.
      destruct (IH _ _ _ _ Hl') as (extra & -> & Hsub & Hall & Hnew).
      unfold append_to in *.
      destruct (decide (cur = k)) as [->|Hne].
      - rewrite lookup_insert_eq in *. simpl.
        exists (text item :: extra). rewrite <- app_assoc. split; [reflexivity|].
        split; [now apply sublist_skip|]. split; [now constructor|].
        intros _. split; [discriminate | now left].
      - rewrite lookup_insert_ne in * by exact Hne.
        exists extra. split; [reflexivity|].
        split; [now apply sublist_cons|]. split; [exact Hall|].
        intros Hn. destruct (Hnew Hn) as [Hx Hk]. split; [exact Hx|].
        destruct Hk as [->|(it & Hit & Hst)]; [now left|].
        right. exists it. split; [now apply list_elem_of_further | exact Hst]. }
    destruct (_match_section _) as [matched|] eqn:Hm.
    + destruct (is_header item) eqn:Hh; cbn [orb] in Hl.
      * apply (Hskip matched Hl). right. split; [exact Hm | now left].
      * destruct (Nat.ltb_spec (Str.len (text item)) 80) as [H80|H80].
        -- apply (Hskip matched Hl). right. split; [exact Hm | now right].
        -- destruct (Nat.ltb_spec (Str.len (text item)) 20) as [H20|H20]; [lia|].
           now apply Hadd.
    + destruct (Nat.ltb_spec (Str.len (text item)) 20) as [H20|H20].
      * apply (Hskip cur Hl). now left.
      * now apply Hadd.
Qed.

Lemma join_length_head (sep x : string) (l : list string) :
  Str.len x <= Str.len (Str.join sep (x :: l)).
Proof.
  destruct l as [|y l]; cbn [Str.join]; [lia|].
  rewrite Str_len_app. lia.
Qed.

Lemma _group_into_sections_lookup (structured_content : list Item) (k v : string) :
  _group_into_sections structured_content !! k = Some v ->
  exists pieces,
    v = Str.join " " pieces
    /\ pieces <> []
    /\ sublist pieces (map text structured_content)
    /\ Forall (fun t => 20 <= Str.len t) pieces
    /\ (k = "introduction"
        \/ exists item, item ∈ structured_content /\ starts_section item k).
Proof.
  unfold _group_into_sections. rewrite lookup_fmap. intros Hv.
  apply fmap_Some in Hv as (l & Hl & ->).
  apply map_lookup_filter_Some in Hl as [Hl _].
  apply group_loop_adds in Hl as (extra & -> & Hsub & Hall & Hnew).
  rewrite lookup_empty in *. simpl.
  destruct (Hnew eq_refl) as [Hne Hk].
  exists extra. repeat split; auto.
Qed.

(** X9: Every section of the map is the space-joined sequence of blocks of the
    document, in document order, each of at least 20 characters: no section
    is empty, none is shorter than 20 characters. *)
Theorem _group_into_sections_content (structured_content : list Item) (k v : string) :
  _group_into_sections structured_content !! k = Some v ->
  20 <= Str.len v
  /\ exists pieces,
       v = Str.join " " pieces
       /\ sublist pieces (map text structured_content)
       /\ Forall (fun t => 20 <= Str.len t) pieces.
Proof.
  intros Hv.
  apply _group_into_sections_lookup in Hv as (pieces & -> & Hne & Hsub & Hall & _).
  split; [|exists pieces; auto].
  destruct pieces as [|x pieces]; [congruence|].
  apply Forall_cons in Hall as [Hx _].
  pose proof (join_length_head " " x pieces). lia.
Qed.

(** X10: A key other than "introduction" is the match of a block that is a
    header or shorter than 80 characters; when no block matches a section,
    "introduction" is the only possible key. *)
Theorem _group_into_sections_key_origin (structured_content : list Item) (k : string) :
  k ∈ dom (_group_into_sections structured_content) ->
  k = "introduction"
  \/ exists item, item ∈ structured_content
                  /\ _match_section (Str.strip (Str.lower (text item))) = Some k
                  /\ (is_header item = true \/ Str.len (text item) < 80).
Proof.
  intros Hk. apply elem_of_dom in Hk as [v Hv].
  apply _group_into_sections_lookup in Hv as (_ & _ & _ & _ & _ & Hk).
  exact Hk.
Qed.

(** X11: An item made of a block has a text that is not empty and neither starts
    nor ends with whitespace; a header has fewer than 100 characters and a
    font size that reaches the threshold. *)
Theorem _extract_block_text_item (min_header_font_size : Q) (block : Block) (item : Item) :
  _extract_block_text min_header_font_size block = Some item ->
  text item <> ""
  /\ trimmed (text item)
  /\ (is_header item = true ->
      Str.len (text item) < 100
      /\ (min_header_font_size <= font_size item)%Q
      /\ (is_bold item = true \/ (min_header_font_size + 1 < font_size item)%Q)).
Proof.
  unfold _extract_block_text. destruct (lines block) as [ls|]; [|discriminate].
  cbv zeta.
  set (full_text := Str.strip (Str.join " " _)).
  assert (trimmed full_text) as Ht by apply strip_trimmed.
  destruct full_text as [|c rest] eqn:Hfull; [discriminate|].
  intros [= <-]. cbn [text is_header font_size is_bold].
  split; [discriminate|]. split; [exact Ht|].
  intros Hh. apply andb_true_iff in Hh as [Hh Hb].
  apply andb_true_iff in Hh as [Hsize Hlen].
  apply Qle_bool_iff in Hsize. apply Nat.ltb_lt in Hlen.
  split; [exact Hlen|]. split; [exact Hsize|].
  apply orb_true_iff in Hb as [Hb|Hb]; [now left|right].
  unfold Qlt_bool in Hb. apply negb_true_iff in Hb.
  apply Qnot_le_lt. intros Hle. apply Qle_bool_iff in Hle. congruence.
Qed.

End GroupingLaws.

(** ** More on the summarizer *)

Section SummarizerLaws.
Import HierarchicalSummarizer Spec Laws.
Context `{Capabilities}.

(** X12: A summary that is not empty ends with a full stop. *)
Theorem _clean_summary_terminal (summary : string) :
  _clean_summary summary = "" \/ Str.endswith (_clean_summary summary) "." = true.
Proof.
  unfold _clean_summary; cbv zeta.
  match goal with
  | |- context [Str.join ". " ?l] => generalize (Str.join ". " l)
  end.
  intros joined. destruct joined as [|c joined]; [left; reflexivity|].
  right. cbn [is_empty negb andb].
  destruct (Str.endswith (String c joined) ".") eqn:He; cbn [negb]; [exact He|].
  apply Str_endswith_app.
Qed.

(** X13: Keyword extraction never raises and leaves the object as it is; without
    a keyword model, on an empty text, or when the model raises, the answer
    is the empty list. *)
Theorem extract_keywords_total (text : string) (n : nat) (s : State) :
  let r := extract_keywords text n s in
  (exists keywords, value r = Some keywords)
  /\ final r = s
  /\ (kw_model s = None \/ text = "" ->
      value r = Some [] /\ log r = [(Call "extract_keywords", s)])
  /\ (forall kw, kw_model s = Some kw -> keybert_extract kw text n = None ->
      value r = Some []).
Proof.
  unfold extract_keywords, bind, event, get; cbn [value final log id].
  destruct (kw_model s) as [kw|] eqn:Hkw; cbn.
  - destruct text as [|c text]; cbn.
    + repeat split; eauto.
    + destruct (keybert_extract kw (String c text) n) eqn:Hk; cbn.
      * split; [eauto|]. split; [reflexivity|]. split.
        -- intros [?|?]; discriminate.
        -- intros kw' [= <-] Hnone. congruence.
      * split; [eauto|]. split; [reflexivity|]. split.
        -- intros [?|?]; discriminate.
        -- reflexivity.
  - repeat split; eauto; try (intros; discriminate).
Qed.

(** *** Inversion of [returns] *)

Lemma returns_bind_inv {A B} (m : M A) (f : A -> M B) s b s2 :
  returns (bind m f) s b s2 ->
  exists a s1, returns m s a s1 /\ returns (f a) s1 b s2.
Proof.
  unfold returns, bind. destruct (value (m s)) as [a|]; simpl.
  - intros [Hv Hf]. exists a, (final (m s)). auto.
  - intros [? _]; discriminate.
Qed.

Lemma returns_lift_inv {A} (o : option A) s a s' :
  returns (lift o) s a s' -> o = Some a /\ s' = s.
Proof. destruct o; intros [Hv Hf]; simpl in *; [split; congruence | discriminate]. Qed.

Lemma returns_event_inv e update s u s' :
  returns (event e update) s u s' -> s' = update s.
Proof. intros [_ Hf]. simpl in Hf. congruence. Qed.

Lemma returns_get_inv s a s' : returns get s a s' -> a = s /\ s' = s.
Proof. intros [Hv Hf]. simpl in *. split; congruence. Qed.

Lemma returns_ret_inv {A} (x : A) s a s' : returns (ret x) s a s' -> a = x /\ s' = s.
Proof. intros [Hv Hf]. simpl in *. split; congruence. Qed.

Lemma returns_try_except_inv {A} (m handler : M A) s a s' :
  returns (try_except m handler) s a s' ->
  returns m s a s' \/ (value (m s) = None /\ returns handler (final (m s)) a s').
Proof.
  unfold returns, try_except. destruct (value (m s)) as [x|] eqn:Hv.
  - rewrite Hv. intros [? ?]. left. auto.
  - simpl. intros [? ?]. right. auto.
Qed.

(** A loader that returns has bound a tokenizer and a model, and nothing
    else has changed. *)
Lemma load_pair_returns_inv (name : string) (f_tok f_model : Field)
    (put_tok : option Tokenizer -> State -> State)
    (put_model : option Model -> State -> State) (s s' : State) :
  (forall v1 v2 x, put_model v2 (put_model v1 x) = put_model v2 x) ->
  returns (load_pair name f_tok f_model put_tok put_model) s tt s' ->
  exists tok m, s' = put_model (Some m) (put_tok (Some tok) s).
Proof.
  intros Hput Hr. unfold load_pair in Hr.
  apply returns_bind_inv in Hr as (s0 & s1 & Hg & Hr).
  apply returns_get_inv in Hg as [-> ->].
  apply returns_bind_inv in Hr as (tok & s1 & Ht & Hr).
  apply returns_lift_inv in Ht as [_ ->].
  apply returns_bind_inv in Hr as (u & s1 & He & Hr).
  apply returns_event_inv in He as ->.
  exists tok.
  apply returns_try_except_inv in Hr as [Hr|[Hnone Hr]].
  - apply returns_bind_inv in Hr as (m & s1 & Hm & Hr).
    apply returns_lift_inv in Hm as [_ ->].
    apply returns_event_inv in Hr as ->. eauto.
  - assert (final (bind (lift (from_pretrained_optimized name (device s)))
                     (fun m => event (Assign f_model) (put_model (Some m)))
                     (put_tok (Some tok) s))
            = put_tok (Some tok) s) as Hfin.
    { revert Hnone. unfold bind.
      destruct (from_pretrained_optimized name (device s)); simpl;
        [discriminate | reflexivity]. }
    rewrite Hfin in Hr. clear Hnone Hfin.
    apply returns_bind_inv in Hr as (m1 & s1 & Hm & Hr).
    apply returns_lift_inv in Hm as [_ ->].
    apply returns_bind_inv in Hr as (u1 & s1 & He & Hr).
    apply returns_event_inv in He as ->.
    apply returns_bind_inv in Hr as (m2 & s1 & Hm & Hr).
    apply returns_lift_inv in Hm as [_ ->].
    apply returns_bind_inv in Hr as (u2 & s1 & He & Hr).
    apply returns_event_inv in He as ->.
    destruct (String.eqb (device s) "cuda").
    + apply returns_bind_inv in Hr as (m3 & s1 & Hm & Hr).
      apply returns_lift_inv in Hm as [_ ->].
      apply returns_event_inv in Hr as ->.
      exists m3. now rewrite !Hput.
    + apply returns_ret_inv in Hr as [_ ->].
      exists m2. now rewrite !Hput.
Qed.

(** X14: Loading, then unloading, gives back the state: the encoder with its
    tokenizer, and the summarizer with its tokenizer. *)
Theorem load_unload_round_trip (s s1 : State) :
  (sentence_encoder s = None -> tokenizer s = None ->
   returns _load_sentence_encoder s tt s1 ->
   is_Some (sentence_encoder s1) /\ returns _unload_sentence_encoder s1 tt s)
  /\ (summarizer s = None -> sum_tokenizer s = None ->
      returns _load_summarizer s tt s1 ->
      is_Some (summarizer s1) /\ returns _unload_summarizer s1 tt s).
Proof.
  split.
  - intros Henc Htok Hr. unfold _load_sentence_encoder in Hr.
    apply returns_bind_inv in Hr as (s0 & s2 & Hg & Hr).
    apply returns_get_inv in Hg as [-> ->]. rewrite Henc in Hr.
    apply load_pair_returns_inv in Hr as (tok & m & ->); [|reflexivity].
    split; [simpl; eauto|].
    destruct s; simpl in *; subst. split; reflexivity.
  - intros Hsum Htok Hr. unfold _load_summarizer in Hr.
    apply returns_bind_inv in Hr as (s0 & s2 & Hg & Hr).
    apply returns_get_inv in Hg as [-> ->]. rewrite Hsum in Hr.
    apply load_pair_returns_inv in Hr as (tok & m & ->); [|reflexivity].
    split; [simpl; eauto|].
    destruct s; simpl in *; subst. split; reflexivity.
Qed.

(** *** After a full run no model is left loaded *)

Lemma triple_any {A} (m : M A) :
  triple (fun _ => True) m (fun _ => True) (fun _ _ => True) (fun _ => True).
Proof.
  intros s _. split; [apply Forall_forall; auto | destruct (value (m s)); auto].
Qed.

Lemma _unload_sentence_encoder_clears :
  triple (fun _ => True) _unload_sentence_encoder (fun _ => True)
    (fun _ => no_encoder) (fun _ => True).
Proof.
  intros s _. split; [apply Forall_forall; auto|].
  unfold _unload_sentence_encoder, del, bind, get, event, ret, raise, no_encoder; simpl.
  destruct (sentence_encoder s) eqn:He; simpl.
  - destruct (tokenizer s) eqn:Ht; simpl; rewrite ?Ht; simpl; auto.
  - exact He.
Qed.

Lemma summarize_section_releases_triple (section_text section_name : string) :
  triple (fun _ => True) (summarize_section section_text section_name)
    (fun _ => True)
    (fun _ s => 50 <= List.length (Str.split (preprocess_text section_text)) -> no_model s)
    (fun _ => True).
Proof.
  unfold summarize_section.
  destruct (Nat.ltb_spec (List.length (Str.split (preprocess_text section_text))) 50).
  { apply triple_ret. intros s _ ?. lia. }
  eapply triple_bind with (R := fun _ _ => True); [apply triple_any|].
  intros extractive.
  eapply triple_bind with (R := fun _ => no_encoder);
    [apply _unload_sentence_encoder_clears|].
  intros _.
  eapply triple_bind with (R := fun _ => no_encoder).
  { eapply triple_conseq; [apply abstractive_summary_preserves|..]; auto. }
  intros abstractive.
  eapply triple_bind with (R := fun _ => no_model).
  { eapply triple_conseq; [apply _unload_summarizer_triple|..]; auto. }
  intros _.
  eapply triple_bind with (R := fun _ => no_model).
  { eapply triple_conseq; [apply extract_keywords_preserves|..]; auto. }
  intros keywords. apply triple_ret. auto.
Qed.

(** X15: Whatever was loaded on entry, a call that goes past the short circuit
    and returns leaves neither the encoder nor the summarizer loaded. *)
Theorem summarize_section_releases (section_text section_name : string) (s0 : State) :
  50 <= List.length (Str.split (preprocess_text section_text)) ->
  value (summarize_section section_text section_name s0) <> None ->
  sentence_encoder (final (summarize_section section_text section_name s0)) = None
  /\ summarizer (final (summarize_section section_text section_name s0)) = None.
Proof.
  intros Hwords Hv.
  destruct (summarize_section_releases_triple section_text section_name s0 I)
    as [_ Hpost].
  destruct (value (summarize_section section_text section_name s0)); [|congruence].
  exact (Hpost Hwords).
Qed.

End SummarizerLaws.

Section SelectionLaws.
Import HierarchicalSummarizer Spec Laws.

Lemma sublist_full {A} (l1 l2 : list A) :
  sublist l1 l2 -> List.length l2 <= List.length l1 -> l1 = l2.
Proof.
  induction 1 as [|x l1 l2 Hs IH|x l1 l2 Hs IH]; intros Hlen; simpl in *.
  - reflexivity.
  - f_equal. apply IH. lia.
  - apply sublist_length in Hs. lia.
Qed.

(** With at most three quality sentences nothing can be dropped, whatever
    the ratio and the scores. *)
Lemma select_top_all (quality_sents : list string) (score : nat -> Q) (ratio : Q) :
  List.length quality_sents <= 3 ->
  select_top quality_sents score ratio = quality_sents.
Proof.
  intros Hn. unfold select_top.
  set (n := List.length quality_sents) in *.
  set (k := Z.to_nat (Z.max 3 (int_of_Q (inject_Z (Z.of_nat n) * ratio)))).
  assert (3 <= k) as Hk by (unfold k; lia).
  rewrite slice_last_drop by lia.
  pose proof (argsort_perm n score) as Hperm.
  set (order := argsort n score) in *.
  assert (List.length order = n) as Hlen.
  { rewrite (Permutation_length Hperm). apply length_seq. }
  replace (List.length order - k) with 0 by lia. rewrite drop_0.
  pose proof (sorted_by_perm Nat.leb order) as Hp.
  set (idx := sorted_by Nat.leb order) in *.
  assert (StronglySorted lt idx) as Hs.
  { apply StronglySorted_le_lt.
    - apply sorted_by_StronglySorted.
      + intros x y Hxy. apply Nat.leb_gt in Hxy. apply Nat.leb_le. lia.
      + intros x y z Hxy Hyz. apply Nat.leb_le in Hxy, Hyz. apply Nat.leb_le. lia.
    - rewrite Hp, Hperm. apply NoDup_seq. }
  assert (Forall (fun i => i < n) idx) as Hlt.
  { apply Forall_forall. intros i Hi. rewrite Hp, Hperm in Hi.
    apply elem_of_seq in Hi. lia. }
  apply sublist_full.
  - now apply map_nth_sublist.
  - rewrite length_map, (Permutation_length Hp), Hlen. fold n. lia.
Qed.

Section WithCapabilities.
Context `{Capabilities}.

(** X16: When the text has at least three sentences of which at most three, and
    at least one, pass the quality filter, an extractive summary that is
    returned is all the quality sentences, joined by spaces: nothing is
    dropped, whatever the ratio. *)
Theorem extractive_summary_keeps_all (text : string) (ratio : Q) (s0 : State)
    (out : string) :
  3 <= List.length (sent_tokenize text) ->
  1 <= List.length (List.filter is_quality (sent_tokenize text)) <= 3 ->
  value (extractive_summary text ratio s0) = Some out ->
  out = Str.join " " (List.filter is_quality (sent_tokenize text)).
Proof.
  intros Hsent [Hmin Hmax] Hv.
  assert (List.filter is_quality (sent_tokenize text) <> []) as Hne.
  { intros Hq. rewrite Hq in Hmin. simpl in Hmin. lia. }
  destruct (extractive_summary_value text ratio s0 out Hsent Hne Hv) as [score ->].
  now rewrite select_top_all.
Qed.
End WithCapabilities.

End SelectionLaws.

(** ** Whitespace after cleaning *)

Section WhitespaceLaws.
Import Re HierarchicalSummarizer Laws.

Lemma cls_space (c : ascii) : cls_matches false [CSpace] c = Char.isspace c.
Proof. unfold cls_matches; simpl. now destruct (Char.isspace c). Qed.

Lemma lstrip_len (s : string) : Str.len (Str.lstrip s) <= Str.len s.
Proof. apply suffix_of_len, lstrip_suffix. Qed.

Lemma rmatch_star {A} (ci : bool) (r1 : regex) (prev : option ascii) (s : string)
    (k : option ascii -> string -> option A) :
  rmatch ci (Star r1) prev s k = star_loop ci r1 k (Str.len s) prev s.
Proof. reflexivity. Qed.

(** A starred whitespace class in front of a continuation that accepts
    whatever it is given: the continuation receives the subject without its
    leading whitespace. *)
Lemma star_space_skips {A} (k : option ascii -> string -> option A) :
  (forall prev s, k prev s <> None) ->
  forall fuel prev s, Str.len s <= fuel ->
    exists prev', star_loop false (Cls [CSpace]) k fuel prev s = k prev' (Str.lstrip s).
Proof.
  intros Hk. induction fuel as [|fuel IH]; intros prev s Hlen.
  - destruct s; [|unfold Str.len in Hlen; simpl in Hlen; lia]. exists prev. reflexivity.
  - cbn [star_loop rmatch]. destruct s as [|c s]; [exists prev; reflexivity|].
    rewrite cls_space. cbn [Str.lstrip]. destruct (Char.isspace c).
    + assert (Str.len s < Str.len (String c s)) as Hlt by (unfold Str.len; simpl; lia).
      apply Nat.ltb_lt in Hlt. rewrite Hlt.
      destruct (IH (Some c) s) as [prev' Heq].
      { unfold Str.len in *; simpl in Hlen; lia. }
      rewrite Heq. exists prev'.
      destruct (k prev' (Str.lstrip s)) eqn:Hks; [reflexivity|].
      exfalso. eapply Hk; eauto.
    + exists prev. reflexivity.
Qed.

(** A match of r'\s+' starts at a whitespace character and stops in front
    of the next character that is not whitespace. *)
Lemma match_here_whitespace (prev : option ascii) (s : string) :
  match s with
  | String c s' =>
      if Char.isspace c
      then exists m prev', match_here whitespace prev s = Some (m, prev', Str.lstrip s)
                           /\ m <> ""
      else match_here whitespace prev s = None
  | EmptyString => match_here whitespace prev s = None
  end.
Proof.
  destruct s as [|c s]; [reflexivity|].
  unfold match_here, whitespace, Plus, space; cbn [expr ignorecase].
  change (rmatch false (Seq (Cls [CSpace]) (Star (Cls [CSpace]))) prev (String c s) ?k)
    with (if cls_matches false [CSpace] c
          then rmatch false (Star (Cls [CSpace])) (Some c) s k else None).
  rewrite cls_space. destruct (Char.isspace c) eqn:Hc; [|reflexivity].
  rewrite rmatch_star.
  destruct (star_space_skips
              (fun prev' rest =>
                 Some (Str.take (Str.len (String c s) - Str.len rest) (String c s),
                       prev', rest))
              ltac:(intros; discriminate) (Str.len s) (Some c) s (le_n _))
    as [prev' Heq].
  rewrite Heq. cbn [Str.lstrip]. rewrite Hc.
  eexists _, prev'. split; [reflexivity|].
  pose proof (lstrip_len s) as Hl.
  replace (Str.len (String c s) - Str.len (Str.lstrip s))
    with (S (Str.len s - Str.len (Str.lstrip s)))
    by (unfold Str.len in *; simpl; lia).
  discriminate.
Qed.

Lemma sub_whitespace_single_spaced (fuel : nat) :
  forall prev s, Str.len s < fuel ->
    single_spaced (sub_from fuel whitespace " " prev s)
    /\ (starts_with_space (sub_from fuel whitespace " " prev s) -> starts_with_space s).
Proof.
  induction fuel as [|fuel IH]; intros prev s Hlen; [lia|].
  cbn [sub_from]. pose proof (match_here_whitespace prev s) as Hm.
  destruct s as [|c s].
  - rewrite Hm. split; [exact I|]. intros (? & ? & ? & _). discriminate.
  - destruct (Char.isspace c) eqn:Hc.
    + destruct Hm as (m & prev' & -> & Hne).
      destruct m as [|c0 m]; [congruence|].
      cbn [Str.lstrip]. rewrite Hc.
      destruct (IH prev' (Str.lstrip s)) as [Hss Hstart].
      { pose proof (lstrip_len s). unfold Str.len in *; simpl in Hlen; lia. }
      change (" " +:+ ?x) with (String " " x). split.
      * cbn [single_spaced]. split; [|exact Hss].
        intros _. split; [reflexivity|].
        destruct (sub_from fuel whitespace " " prev' (Str.lstrip s)) as [|d o] eqn:Ho;
          [exact I|].
        destruct (Char.isspace d) eqn:Hd; [|reflexivity].
        destruct Hstart as (d' & r & Hl & Hd'); [exists d, o; auto|].
        apply lstrip_first in Hl. congruence.
      * intros _. exists c, s. auto.
    + rewrite Hm.
      destruct (IH (Some c) s) as [Hss Hstart].
      { unfold Str.len in *; simpl in Hlen; lia. }
      split.
      * cbn [single_spaced]. split; [intros ?; congruence | exact Hss].
      * intros (d & r & [= <- _] & Hd). congruence.
Qed.

Lemma single_spaced_suffix (pre s : string) : single_spaced (pre +:+ s) -> single_spaced s.
Proof.
  induction pre as [|c pre IH]; [auto|].
  rewrite Str_app_cons. cbn [single_spaced]. intros [_ Hs]. auto.
Qed.

Lemma single_spaced_prefix (s post : string) : single_spaced (s +:+ post) -> single_spaced s.
Proof.
  induction s as [|c s IH]; [intros; exact I|].
  rewrite Str_app_cons. cbn [single_spaced]. intros [Hc Hs]. split; [|auto].
  intros Hsp. destruct (Hc Hsp) as [-> Hnext]. split; [reflexivity|].
  destruct s as [|d s]; [exact I|]. rewrite Str_app_cons in Hnext. exact Hnext.
Qed.

Lemma strip_single_spaced (s : string) : single_spaced s -> single_spaced (Str.strip s).
Proof.
  intros Hs. destruct (strip_occurs s) as (pre & post & Heq).
  rewrite Heq in Hs. apply single_spaced_suffix in Hs.
  now apply single_spaced_prefix in Hs.
Qed.

Lemma preprocess_text_single_spaced (text : string) :
  single_spaced (preprocess_text text) /\ trimmed (preprocess_text text).
Proof.
  unfold preprocess_text; cbv zeta. split; [|apply strip_trimmed].
  apply strip_single_spaced. unfold sub.
  apply sub_whitespace_single_spaced. lia.
Qed.

(** *** Splitting a normalised text and joining it again *)

Lemma no_trailing_space_tail (c : ascii) (s : string) :
  no_trailing_space (String c s) -> s <> "" -> no_trailing_space s.
Proof.
  intros Hn Hne d r Hrev. apply (Hn d (r +:+ String c "")).
  rewrite Str_rev_cons, Hrev. reflexivity.
Qed.

Lemma split_ws_aux_nonempty (s cur : string) :
  cur <> "" \/ (exists c s', s = String c s' /\ Char.isspace c = false) ->
  Str.split_ws_aux s cur <> [].
Proof.
  revert cur. induction s as [|c s IH]; intros cur Hc; cbn [Str.split_ws_aux].
  - destruct Hc as [Hc|(? & ? & ? & _)]; [|discriminate].
    destruct cur; [congruence | discriminate].
  - destruct (Char.isspace c) eqn:Hsp.
    + destruct Hc as [Hc|(? & ? & [= <- _] & ?)]; [|congruence].
      destruct cur; [congruence | discriminate].
    + apply IH. left. discriminate.
Qed.

Lemma join_split_aux (s : string) : forall cur,
  single_spaced s ->
  no_trailing_space s ->
  (starts_with_space s -> cur <> "") ->
  Str.join " " (Str.split_ws_aux s cur) = Str.rev cur +:+ s.
Proof.
  induction s as [|c s IH]; intros cur Hss Hend Hstart; cbn [Str.split_ws_aux].
  - rewrite Str_app_empty_r. destruct cur; reflexivity.
  - cbn [single_spaced] in Hss. destruct Hss as [Hc Hss].
    destruct (Char.isspace c) eqn:Hsp.
    + destruct (Hc eq_refl) as [-> Hnext].
      assert (cur <> "") as Hcur by (apply Hstart; exists " "%char, s; auto).
      destruct s as [|d s].
      { exfalso. specialize (Hend " "%char "" eq_refl). discriminate. }
      assert (Str.split_ws_aux (String d s) "" <> []) as Hne.
      { apply split_ws_aux_nonempty. right. exists d, s. auto. }
      assert (Str.join " " (Str.split_ws_aux (String d s) "") = String d s) as Hj.
      { rewrite IH; auto.
        - apply (no_trailing_space_tail " "); [exact Hend | discriminate].
        - intros (? & ? & [= <- _] & ?). congruence. }
      destruct cur as [|c0 cur]; [congruence|].
      destruct (Str.split_ws_aux (String d s) "") as [|x l] eqn:Hsplit; [congruence|].
      cbn [Str.join]. cbn [Str.join] in Hj. rewrite Hj. reflexivity.
    + rewrite IH.
      * rewrite Str_rev_cons, Str_app_assoc. reflexivity.
      * exact Hss.
      * destruct s as [|d s]; [intros ? ? Hr; discriminate|].
        apply (no_trailing_space_tail c); [exact Hend | discriminate].
      * intros _. discriminate.
Qed.

(** X17: The cleaned text is in normal form: it neither starts nor ends with
    whitespace, its only whitespace is single spaces, and joining its words
    with single spaces gives it back. *)
Theorem preprocess_text_normal_form (text : string) :
  trimmed (preprocess_text text)
  /\ single_spaced (preprocess_text text)
  /\ Str.join " " (Str.split (preprocess_text text)) = preprocess_text text.
Proof.
  destruct (preprocess_text_single_spaced text) as [Hss Htrim].
  split; [exact Htrim|]. split; [exact Hss|].
  unfold Str.split. rewrite join_split_aux.
  - reflexivity.
  - exact Hss.
  - exact (proj2 Htrim).
  - intros (c & s' & Heq & Hc). destruct Htrim as [Hfirst _].
    specialize (Hfirst c s' Heq). congruence.
Qed.

End WhitespaceLaws.

(** ** The items of the section map *)

Section SectionOrderLaws.
Import AdvancedSectionExtractor SectionOrder Spec Laws.

Lemma append_item_keys (items : list (string * list string)) (key t : string) :
  map fst (append_item items key t)
  = if bool_decide (key ∈ map fst items) then map fst items else map fst items ++ [key].
Proof.
  induction items as [|[k v] items IH]; cbn [append_item map fst].
  - rewrite bool_decide_false by (intros Hin; inversion Hin). reflexivity.
  - destruct (String.eqb_spec k key) as [->|Hne].
    + rewrite bool_decide_true by apply list_elem_of_here. reflexivity.
    + cbn [map fst]. rewrite IH.
      destruct (decide (key ∈ map fst items)) as [Hin|Hnin].
      * rewrite !bool_decide_true; auto. now apply list_elem_of_further.
      * rewrite !bool_decide_false; auto.
        intros Hin. apply elem_of_cons in Hin as [?|?]; congruence.
Qed.

Lemma append_item_NoDup (items : list (string * list string)) (key t : string) :
  NoDup (map fst items) -> NoDup (map fst (append_item items key t)).
Proof.
  intros Hnd. rewrite append_item_keys. case_bool_decide as Hin; [exact Hnd|].
  apply NoDup_app. split; [exact Hnd|]. split; [|apply NoDup_singleton].
  intros k Hk Hk'. apply list_elem_of_singleton in Hk'. congruence.
Qed.

Lemma append_item_to_map (items : list (string * list string)) (key t : string) :
  (list_to_map (append_item items key t) : gmap string (list string))
  = append_to (list_to_map items) key t.
Proof.
  unfold append_to. induction items as [|[k v] items IH]; cbn [append_item].
  - simpl. rewrite lookup_empty. reflexivity.
  - destruct (String.eqb_spec k key) as [->|Hne]; cbn [list_to_map foldr].
    + simpl. rewrite lookup_insert_eq. simpl. now rewrite insert_insert_eq.
    + simpl. rewrite IH, lookup_insert_ne by exact Hne.
      apply insert_insert_ne. congruence.
Qed.

Lemma group_loop_items_spec (content : list Item) :
  forall (items : list (string * list string)) (current_section : string),
    NoDup (map fst items) ->
    NoDup (map fst (group_loop_items content items current_section))
    /\ (list_to_map (group_loop_items content items current_section)
          : gmap string (list string))
       = group_loop content (list_to_map items) current_section.
Proof.
  induction content as [|item content IH]; intros items cur Hnd;
    cbn [group_loop_items group_loop]; cbv zeta.
  - auto.
  - destruct (_match_section _) as [matched|].
    + destruct (is_header item || _); [now apply IH|].
      destruct (_ <? 20); [now apply IH|].
      rewrite <- append_item_to_map. apply IH. now apply append_item_NoDup.
    + destruct (_ <? 20); [now apply IH|].
      rewrite <- append_item_to_map. apply IH. now apply append_item_NoDup.
Qed.

(** The items and the map agree: same keys, once each, with the same
    texts. *)
Lemma _group_into_sections_items_spec (structured_content : list Item) :
  NoDup (map fst (_group_into_sections_items structured_content))
  /\ forall k v,
       (k, v) ∈ _group_into_sections_items structured_content
       <-> _group_into_sections structured_content !! k = Some v.
Proof.
  unfold _group_into_sections_items, _group_into_sections.
  destruct (group_loop_items_spec structured_content [] "introduction") as [Hnd Hmap];
    [constructor|].
  simpl in Hmap. rewrite <- Hmap.
  set (items := group_loop_items structured_content [] "introduction") in *.
  split.
  - rewrite map_map. cbn [fst].
    eapply sublist_NoDup; [exact Hnd|].
    change (sublist (fst <$> List.filter (fun kv => nonempty kv.2) items) (fst <$> items)).
    apply fmap_sublist.
    clear. induction items as [|kv items IH]; simpl; [constructor|].
    destruct (nonempty kv.2); [now apply sublist_skip | now apply sublist_cons].
  - intros k v. rewrite lookup_fmap, fmap_Some. split.
    + intros Hin. apply list_elem_of_In, in_map_iff in Hin as ([k' l] & [= <- <-] & Hin).
      apply filter_In in Hin as [Hin Hne]. exists l. split; [|reflexivity].
      apply map_lookup_filter_Some. split; [|exact Hne].
      apply elem_of_list_to_map; [exact Hnd | now apply list_elem_of_In].
    + intros (l & Hl & ->). apply map_lookup_filter_Some in Hl as [Hl Hne].
      apply elem_of_list_to_map in Hl; [|exact Hnd].
      apply list_elem_of_In, in_map_iff. exists (k, l). split; [reflexivity|].
      apply filter_In. split; [now apply list_elem_of_In | exact Hne].
Qed.

Lemma extract_sections_items_spec (doc : option (list Page)) :
  NoDup (map fst (extract_sections_items doc))
  /\ forall k v,
       (k, v) ∈ extract_sections_items doc
       <-> extract_sections_from_pdf doc !! k = Some v.
Proof.
  destruct doc as [pages|]; cbn [extract_sections_items extract_sections_from_pdf].
  2: { split; [constructor|]. intros k v. rewrite lookup_empty.
       split; [intros Hin; inversion Hin | discriminate]. }
  destruct (_group_into_sections_items_spec (structured_content_of pages)) as [Hnd Hiff].
  set (items := _group_into_sections_items (structured_content_of pages)) in *.
  split.
  - eapply sublist_NoDup; [exact Hnd|].
    change (sublist (fst <$> List.filter (fun kv => negb (String.eqb kv.1 "references")) items)
              (fst <$> items)).
    apply fmap_sublist.
    clear. induction items as [|kv items IH]; simpl; [constructor|].
    destruct (negb _); [now apply sublist_skip | now apply sublist_cons].
  - intros k v. rewrite lookup_delete_Some, <- Hiff. split.
    + intros Hin. apply list_elem_of_In, filter_In in Hin as [Hin Hk]. simpl in Hk.
      split; [|now apply list_elem_of_In].
      intros <-. discriminate.
    + intros [Hk Hin]. apply list_elem_of_In, filter_In.
      split; [now apply list_elem_of_In|]. simpl.
      destruct (String.eqb_spec k "references"); [congruence | reflexivity].
Qed.

Lemma extract_sections_items_keys (doc : option (list Page)) (k : string) :
  k ∈ map fst (extract_sections_items doc) -> k ∈ vocabulary.
Proof.
  intros Hk. apply list_elem_of_fmap in Hk as ([k' v] & -> & Hin). simpl.
  apply extract_sections_items_spec in Hin.
  destruct doc as [pages|]; cbn [extract_sections_from_pdf] in Hin;
    [|rewrite lookup_empty in Hin; discriminate].
  apply lookup_delete_Some in Hin as [Hne Hin].
  assert (k' ∈ section_names) as Hs by (eapply _group_into_sections_keys; eauto).
  unfold section_names in Hs; simpl in Hs. unfold vocabulary. set_solver.
Qed.

End SectionOrderLaws.

(** ** The plain text of a file *)

Section PdfTextLaws.
Import ImprovedPDFExtractor Laws.

Lemma Str_app_eq_empty (s t : string) : s +:+ t = "" -> s = "" /\ t = "".
Proof. destruct s; [auto | rewrite Str_app_cons; discriminate]. Qed.

Lemma block_line_empty (block : RawBlock) : block_line block = "" <-> ~ kept block.
Proof.
  unfold block_line, kept. destruct (raw_text block) as [t|].
  - cbv zeta. destruct (Nat.ltb_spec 20 (Str.len (Str.strip t))) as [Hlt|Hge]; split.
    + intros He. apply Str_app_eq_empty in He as [_ He]. discriminate.
    + intros Hk. exfalso. apply Hk. eauto.
    + intros _ (t' & [= <-] & Hlt). lia.
    + reflexivity.
  - split; [|reflexivity]. intros _ (t' & Ht & _). discriminate.
Qed.

Lemma block_line_kept (block : RawBlock) (t : string) :
  raw_text block = Some t -> 20 < Str.len (Str.strip t) ->
  block_line block = Str.strip t +:+ FlowchartGenerator.nl.
Proof.
  intros Ht Hlen. unfold block_line. rewrite Ht. cbv zeta.
  destruct (Nat.ltb_spec 20 (Str.len (Str.strip t))); [reflexivity | lia].
Qed.

Lemma foldl_append_app {A} (f : A -> string) (l : list A) (init : string) :
  foldl (fun acc x => acc +:+ f x) init l
  = init +:+ foldl (fun acc x => acc +:+ f x) "" l.
Proof.
  revert init. induction l as [|x l IH]; intros init; cbn [foldl].
  - now rewrite Str_app_empty_r.
  - rewrite IH, (IH ("" +:+ f x)). change ("" +:+ f x) with (f x).
    now rewrite Str_app_assoc.
Qed.

Lemma foldl_append_empty {A} (f : A -> string) (l : list A) :
  foldl (fun acc x => acc +:+ f x) "" l = "" <-> forall x, x ∈ l -> f x = "".
Proof.
  induction l as [|x l IH]; cbn [foldl].
  - split; [|reflexivity]. intros _ x Hx. inversion Hx.
  - rewrite foldl_append_app. change ("" +:+ f x) with (f x). split.
    + intros He. apply Str_app_eq_empty in He as [Hx Hl].
      intros y Hy. apply elem_of_cons in Hy as [->|Hy]; [exact Hx|].
      now apply IH.
    + intros Hall. rewrite (Hall x) by apply list_elem_of_here.
      apply IH. intros y Hy. apply Hall. now apply list_elem_of_further.
Qed.

Lemma foldl_append_occurs {A} (f : A -> string) (l : list A) (x : A) :
  x ∈ l -> occurs_in (f x) (foldl (fun acc x => acc +:+ f x) "" l).
Proof.
  induction l as [|y l IH]; intros Hx; [inversion Hx|].
  cbn [foldl]. rewrite foldl_append_app. change ("" +:+ f y) with (f y).
  apply elem_of_cons in Hx as [->|Hx].
  - exists "", (foldl (fun acc x => acc +:+ f x) "" l). reflexivity.
  - destruct (IH Hx) as (pre & post & ->). exists (f y +:+ pre), post.
    now rewrite Str_app_assoc.
Qed.

Lemma page_text_empty (blocks : list RawBlock) :
  page_text blocks = "" <-> forall block, block ∈ blocks -> ~ kept block.
Proof.
  unfold page_text. rewrite foldl_append_empty. split.
  - intros Hall block Hb. apply block_line_empty, Hall.
    now rewrite sorted_by_perm.
  - intros Hall block Hb. apply block_line_empty, Hall.
    now rewrite sorted_by_perm in Hb.
Qed.

Lemma join_eq_empty (sep : string) (parts : list string) :
  Forall (fun p => p <> "") parts -> Str.join sep parts = "" -> parts = [].
Proof.
  destruct parts as [|p parts]; [reflexivity|].
  intros Hne. apply Forall_cons in Hne as [Hp _]. cbn [Str.join].
  destruct parts as [|q parts]; [congruence|].
  intros He. apply Str_app_eq_empty in He as [He _]. congruence.
Qed.

Lemma join_occurs (sep : string) (parts : list string) (p : string) :
  p ∈ parts -> occurs_in p (Str.join sep parts).
Proof.
  induction parts as [|q parts IH]; intros Hp; [inversion Hp|].
  cbn [Str.join]. destruct parts as [|q' parts].
  - apply list_elem_of_singleton in Hp as ->. exists "", "". now rewrite Str_app_empty_r.
  - apply elem_of_cons in Hp as [->|Hp].
    + exists "", (sep +:+ Str.join sep (q' :: parts)). reflexivity.
    + destruct (IH Hp) as (pre & post & Heq). rewrite Heq.
      exists (q +:+ sep +:+ pre), post. now rewrite !Str_app_assoc.
Qed.

Lemma not_empty_spec (s : string) : not_empty s = true <-> s <> "".
Proof. destruct s; simpl; split; congruence. Qed.

(** X18: The text is empty exactly when the file cannot be read or none of its
    blocks, on any page, is kept; in particular an unreadable file and a
    file of short fragments give the same answer. *)
Theorem extract_text_from_pdf_empty (doc : option (list (list RawBlock))) :
  extract_text_from_pdf doc = ""
  <-> forall pages, doc = Some pages ->
        forall page block, page ∈ pages -> block ∈ page -> ~ kept block.
Proof.
  destruct doc as [pages|]; cbn [extract_text_from_pdf]; cbv zeta.
  2: { split; [intros _ pages Hd; discriminate | reflexivity]. }
  split.
  - intros He pages' [= <-] page block Hp Hb.
    apply join_eq_empty in He.
    + assert (page_text page = "") as Hpt.
      { destruct (page_text page) eqn:Hpt; [reflexivity|].
        assert (page_text page ∈ List.filter not_empty (map page_text pages)) as Hin.
        { apply list_elem_of_In, filter_In. split.
          - apply in_map. now apply list_elem_of_In.
          - rewrite Hpt. reflexivity. }
        rewrite He in Hin. inversion Hin. }
      exact (proj1 (page_text_empty page) Hpt block Hb).
    + apply Forall_forall. intros p Hin.
      apply list_elem_of_In, filter_In in Hin as [_ Hin]. now apply not_empty_spec.
  - intros Hall.
    assert (List.filter not_empty (map page_text pages) = []) as ->; [|reflexivity].
    specialize (Hall pages eq_refl).
    induction pages as [|page pages IH]; [reflexivity|]. cbn [map List.filter].
    assert (page_text page = "") as ->.
    { apply page_text_empty. intros block Hb. apply (Hall page block); [|exact Hb].
      apply list_elem_of_here. }
    cbn [not_empty]. apply IH. intros page' block Hp Hb.
    apply (Hall page' block); [|exact Hb]. now apply list_elem_of_further.
Qed.

(** X19: No kept block is lost: its stripped text, followed by a line feed,
    occurs in the text of the file. *)
Theorem extract_text_from_pdf_keeps (pages : list (list RawBlock))
    (page : list RawBlock) (block : RawBlock) (t : string) :
  page ∈ pages -> block ∈ page ->
  raw_text block = Some t -> 20 < Str.len (Str.strip t) ->
  occurs_in (Str.strip t +:+ FlowchartGenerator.nl) (extract_text_from_pdf (Some pages)).
Proof.
  intros Hp Hb Ht Hlen. cbn [extract_text_from_pdf]; cbv zeta.
  assert (occurs_in (Str.strip t +:+ FlowchartGenerator.nl) (page_text page)) as Hocc.
  { rewrite <- (block_line_kept block t Ht Hlen). unfold page_text.
    apply (foldl_append_occurs block_line). now rewrite sorted_by_perm. }
  eapply occurs_in_trans; [exact Hocc|].
  apply join_occurs. apply list_elem_of_In, filter_In. split.
  - apply in_map. now apply list_elem_of_In.
  - apply not_empty_spec. intros He. destruct Hocc as (pre & post & Heq).
    rewrite He in Heq. symmetry in Heq.
    apply Str_app_eq_empty in Heq as [_ Heq].
    apply Str_app_eq_empty in Heq as [Heq _].
    apply Str_app_eq_empty in Heq as [_ Heq]. discriminate.
Qed.

End PdfTextLaws.

(** ** The whole paper *)

Section PaperLaws.
Import HierarchicalSummarizer EnhancedResearchPaperSummarizer Spec Laws.

Lemma assoc_elem_of {V} (key : string) (items : list (string * V)) (v : V) :
  SectionOrder.assoc key items = Some v -> (key, v) ∈ items.
Proof.
  induction items as [|[k x] items IH]; cbn [SectionOrder.assoc]; [discriminate|].
  destruct (String.eqb_spec k key) as [->|Hne].
  - intros [= ->]. apply list_elem_of_here.
  - intros Hv. apply list_elem_of_further, IH, Hv.
Qed.

Lemma assoc_None {V} (key : string) (items : list (string * V)) :
  key ∉ map fst items -> SectionOrder.assoc key items = None.
Proof.
  induction items as [|[k x] items IH]; cbn [SectionOrder.assoc map fst]; [reflexivity|].
  intros Hnin. destruct (String.eqb_spec k key) as [->|Hne].
  - exfalso. apply Hnin, list_elem_of_here.
  - apply IH. intros Hin. apply Hnin. now apply list_elem_of_further.
Qed.

(** The sections worked on: named from the vocabulary, each once, and at
    least one. *)
Lemma sections_of_keys (pdf : Pdf) :
  sections_of pdf <> []
  /\ NoDup (map fst (sections_of pdf))
  /\ forall k, k ∈ map fst (sections_of pdf) -> k ∈ vocabulary.
Proof.
  unfold sections_of.
  destruct (extract_sections_items_spec (layout pdf)) as [Hnd _].
  pose proof (extract_sections_items_keys (layout pdf)) as Hkeys.
  destruct (SectionOrder.extract_sections_items (layout pdf)) as [|kv items].
  - split; [discriminate|]. split.
    + apply NoDup_singleton.
    + intros k Hk. apply list_elem_of_singleton in Hk as ->.
      unfold vocabulary. set_solver.
  - split; [discriminate|]. split; [exact Hnd | exact Hkeys].
Qed.

Lemma sections_of_not_references (pdf : Pdf) (name text : string) :
  (name, text) ∈ sections_of pdf -> String.eqb name "references" = false.
Proof.
  intros Hin. destruct (sections_of_keys pdf) as (_ & _ & Hkeys).
  assert (name ∈ vocabulary) as Hv.
  { apply Hkeys. apply list_elem_of_fmap. exists (name, text). auto. }
  destruct (String.eqb_spec name "references") as [->|]; [|reflexivity].
  unfold vocabulary in Hv. set_solver.
Qed.

Section WithCapabilities.
Context `{Capabilities}.

(** What the loop hands over: one result per section that has text, in the
    order of the sections, each the value of a call of
    [summarize_section]. *)
Lemma summarize_sections_returns_inv (sections : list (string * string)) :
  forall s results s',
    returns (summarize_sections sections) s results s' ->
    Forall2 (fun kv r =>
               r.1 = kv.1
               /\ exists s1 s2, returns (summarize_section kv.2 kv.1) s1 r.2 s2)
      (List.filter (fun kv => negb (is_empty kv.2) && negb (String.eqb kv.1 "references"))
         sections)
      results.
Proof.
  induction sections as [|[name text] rest IH]; intros s results s' Hr;
    cbn [summarize_sections List.filter] in *.
  - apply returns_ret_inv in Hr as [-> _]. constructor.
  - cbn [fst snd]. destruct (negb (is_empty text) && negb (String.eqb name "references")).
    + apply returns_bind_inv in Hr as (r & s1 & Hr1 & Hr).
      apply returns_bind_inv in Hr as (rs & s2 & Hr2 & Hr).
      apply returns_ret_inv in Hr as [-> _].
      constructor; [|eapply IH; exact Hr2].
      split; [reflexivity|]. simpl. eauto.
    + eapply IH; exact Hr.
Qed.

Lemma summarize_paper_returns_inv (pdf : Pdf) (s s' : State) (ps : PaperSummary) :
  returns (summarize_paper pdf) s ps s' ->
  exists results s1 keywords,
    returns (summarize_sections (sections_of pdf)) s results s1
    /\ returns (extract_keywords
                  (Str.join " " (map snd (map (fun r => (r.1, r.2.1)) results))) 10)
         s1 keywords s'
    /\ section_summaries ps = map (fun r => (r.1, r.2.1)) results
    /\ section_keywords ps = map (fun r => (r.1, r.2.2)) results
    /\ sections_found ps = map fst (sections_of pdf)
    /\ overall_summary ps = Str.join " " (map snd (section_summaries ps))
    /\ overall_keywords ps = keywords
    /\ methodology_flowchart ps
       = match SectionOrder.assoc "methodology" (sections_of pdf) with
         | Some methodology =>
             FlowchartGenerator.generate_flowchart sent_tokenize methodology
         | None => None
         end.
Proof.
  unfold summarize_paper. cbv zeta. intros Hr.
  apply returns_bind_inv in Hr as (results & s1 & Hr1 & Hr).
  apply returns_bind_inv in Hr as (keywords & s2 & Hr2 & Hr).
  apply returns_ret_inv in Hr as [-> ->].
  exists results, s1, keywords.
  split; [exact Hr1|]. split; [exact Hr2|]. cbn. repeat split.
Qed.

Lemma value_returns {A} (m : M A) (s : State) (a : A) :
  value (m s) = Some a -> returns m s a (final (m s)).
Proof. intros Hv. split; [exact Hv | reflexivity]. Qed.

(** X20: A report names at least one section; the names come from the
    vocabulary (never the references), none twice; and the summaries and
    the keywords are keyed, in the order of the sections, by exactly the
    sections that have text. *)
Theorem summarize_paper_sections (pdf : Pdf) (s : State) (ps : PaperSummary) :
  value (summarize_paper pdf s) = Some ps ->
  sections_found ps <> []
  /\ NoDup (sections_found ps)
  /\ (forall name, name ∈ sections_found ps -> name ∈ vocabulary)
  /\ map fst (section_summaries ps)
     = map fst (List.filter (fun kv => negb (is_empty kv.2)) (sections_of pdf))
  /\ map fst (section_keywords ps) = map fst (section_summaries ps).
Proof.
  intros Hv. apply value_returns, summarize_paper_returns_inv in Hv
    as (results & s1 & kws & Hrs & _ & Hsum & Hkw & Hfound & _).
  destruct (sections_of_keys pdf) as (Hne & Hnd & Hkeys).
  rewrite Hfound, Hsum, Hkw.
  split; [destruct (sections_of pdf); [congruence | discriminate]|].
  split; [exact Hnd|]. split; [exact Hkeys|]. split.
  - apply summarize_sections_returns_inv in Hrs.
    rewrite map_map. cbn [fst].
    assert (List.filter (fun kv => negb (is_empty kv.2) && negb (String.eqb kv.1 "references"))
              (sections_of pdf)
            = List.filter (fun kv => negb (is_empty kv.2)) (sections_of pdf)) as Heq.
    { apply filter_ext_in. intros [name text] Hin. simpl.
      rewrite (sections_of_not_references pdf name text) by now apply list_elem_of_In.
      apply andb_true_r. }
    rewrite Heq in Hrs. clear -Hrs.
    induction Hrs as [|kv r kvs rs [Hk _] _ IH]; [reflexivity|].
    cbn [map]. now rewrite Hk, IH.
  - rewrite !map_map. reflexivity.
Qed.

(** X21: A flowchart in the report was drawn from the text that the layout
    analysis filed under methodology, not from its summary; the fallback on
    the plain text gives none. *)
Theorem summarize_paper_flowchart (pdf : Pdf) (s : State) (ps : PaperSummary)
    (mermaid : string) :
  value (summarize_paper pdf s) = Some ps ->
  methodology_flowchart ps = Some mermaid ->
  exists methodology,
    AdvancedSectionExtractor.extract_sections_from_pdf (layout pdf) !! "methodology"
    = Some methodology
    /\ FlowchartGenerator.generate_flowchart sent_tokenize methodology = Some mermaid.
Proof.
  intros Hv Hflow. apply value_returns, summarize_paper_returns_inv in Hv
    as (results & s1 & kws & _ & _ & _ & _ & _ & _ & _ & Hf).
  rewrite Hf in Hflow. clear Hf.
  destruct (SectionOrder.assoc "methodology" (sections_of pdf)) as [methodology|] eqn:Ha;
    [|discriminate].
  exists methodology. split; [|exact Hflow].
  apply assoc_elem_of in Ha. unfold sections_of in Ha.
  destruct (SectionOrder.extract_sections_items (layout pdf)) as [|kv items] eqn:Hitems.
  - apply list_elem_of_singleton in Ha. discriminate.
  - rewrite <- Hitems in Ha. now apply extract_sections_items_spec.
Qed.

(** X22: A section of fewer than 50 words goes into the report as its cleaned
    text, with no keywords, whatever happens to the other sections. *)
Theorem summarize_paper_short_section (pdf : Pdf) (s : State) (ps : PaperSummary)
    (name text : string) :
  value (summarize_paper pdf s) = Some ps ->
  (name, text) ∈ sections_of pdf ->
  text <> "" ->
  List.length (Str.split (preprocess_text text)) < 50 ->
  (name, preprocess_text text) ∈ section_summaries ps
  /\ (name, []) ∈ section_keywords ps.
Proof.
  intros Hv Hin Hne Hwords. apply value_returns, summarize_paper_returns_inv in Hv
    as (results & s1 & kws & Hrs & _ & Hsum & Hkw & _).
  rewrite Hsum, Hkw. apply summarize_sections_returns_inv in Hrs.
  assert ((name, text) ∈
            List.filter (fun kv => negb (is_empty kv.2) && negb (String.eqb kv.1 "references"))
              (sections_of pdf)) as Hin'.
  { apply list_elem_of_In, filter_In. split; [now apply list_elem_of_In|]. simpl.
    rewrite (sections_of_not_references pdf name text Hin).
    destruct text; [congruence | reflexivity]. }
  clear Hin Hsum Hkw. induction Hrs as [|kv r kvs rs [Hk (s2 & s3 & Hr)] _ IH]; [inversion Hin'|].
  apply elem_of_cons in Hin' as [<-|Hin'].
  - simpl in Hk, Hr. unfold summarize_section in Hr.
    destruct (Nat.ltb_spec (List.length (Str.split (preprocess_text text))) 50); [|lia].
    apply returns_ret_inv in Hr as [Hr _].
    destruct r as [rn [rsum rkw]]. simpl in *. inversion Hr; subst.
    split; apply list_elem_of_here.
  - destruct (IH Hin') as [H1 H2]. split; apply list_elem_of_further; assumption.
Qed.

End WithCapabilities.
End PaperLaws.

(** ** The models over a whole paper *)

Section PaperRunLaws.
Import HierarchicalSummarizer EnhancedResearchPaperSummarizer Spec Laws.

Section WithCapabilities.
Context `{Capabilities}.

(** Keyword extraction logs its entry and, at most, the run of the keyword
    model, and changes nothing. *)
Lemma extract_keywords_log (text : string) (n : nat) (s : State) :
  Forall (fun entry : Event * State =>
            (entry.1 = Call "extract_keywords" \/ entry.1 = Run F_kw_model)
            /\ entry.2 = s)
    (log (extract_keywords text n s)).
Proof.
  unfold extract_keywords, bind, event, get; cbn [value final log id].
  destruct (kw_model s) as [kw|]; cbn.
  - destruct text as [|c text]; cbn.
    + repeat (constructor; [simpl; auto|]). constructor.
    + destruct (keybert_extract kw (String c text) n); cbn;
        repeat (constructor; [simpl; auto|]); constructor.
  - repeat (constructor; [simpl; auto|]). constructor.
Qed.

Lemma extract_keywords_value (text : string) (n : nat) (s : State) :
  exists keywords,
    value (extract_keywords text n s) = Some keywords
    /\ final (extract_keywords text n s) = s.
Proof.
  unfold extract_keywords, bind, event, get; cbn [value final log id].
  destruct (kw_model s) as [kw|]; cbn; [|eauto].
  destruct text as [|c text]; cbn; [eauto|].
  destruct (keybert_extract kw (String c text) n); cbn; eauto.
Qed.

Lemma extract_keywords_triple (text : string) (n : nat) :
  triple no_summarizer (extract_keywords text n)
    residency_discipline (fun _ => no_summarizer) (fun s => ~ both_resident s).
Proof.
  intros s Hs. split.
  - eapply Forall_impl; [apply extract_keywords_log|].
    intros [e s'] [He Hs']. simpl in He, Hs'. subst s'.
    unfold residency_discipline. simpl. split; [now apply no_summarizer_not_both|].
    split.
    + intros ->. destruct He; discriminate.
    + intros _. exact Hs.
  - destruct (extract_keywords_value text n s) as (keywords & -> & ->). exact Hs.
Qed.

Lemma summarize_paper_triple (pdf : Pdf) :
  triple no_summarizer (summarize_paper pdf)
    residency_discipline (fun _ => no_summarizer) (fun s => ~ both_resident s).
Proof.
  unfold summarize_paper. cbv zeta.
  eapply triple_bind; [apply summarize_sections_triple|]. intros results.
  eapply triple_bind; [apply extract_keywords_triple|]. intros keywords.
  apply triple_ret. auto.
Qed.

(** X23: Over a whole paper, on an object whose summarizer is not loaded, the
    encoder and the summarizer are never loaded together, whatever the
    file holds and whichever load or model call raises; a report that is
    returned leaves the summarizer unloaded, so the next paper starts from
    the same condition. *)
Theorem summarize_paper_residency (pdf : Pdf) (s0 : State) :
  summarizer s0 = None ->
  Forall (fun entry : Event * State =>
            ~ both_resident entry.2
            /\ (entry.1 = Assign F_summarizer -> sentence_encoder entry.2 = None)
            /\ (entry.1 = Call "extract_keywords" -> summarizer entry.2 = None))
    (log (summarize_paper pdf s0))
  /\ ~ both_resident (final (summarize_paper pdf s0))
  /\ (value (summarize_paper pdf s0) <> None ->
      summarizer (final (summarize_paper pdf s0)) = None).
Proof.
  intros Hs. destruct (summarize_paper_triple pdf s0 Hs) as [Hlog Hpost].
  split; [exact Hlog|].
  destruct (value (summarize_paper pdf s0)).
  - split; [now apply no_summarizer_not_both | intros _; exact Hpost].
  - split; [exact Hpost | congruence].
Qed.




End WithCapabilities.
End PaperRunLaws.

(** ** The laws on sample inputs *)

Section OnSamples.
Import AdvancedSectionExtractor EnhancedEntityExtractor FlowchartGenerator
  HierarchicalSummarizer ImprovedPDFExtractor EnhancedResearchPaperSummarizer Spec Laws.

Lemma _extract_steps_complete_witness :
  step_key (step_of (Str.strip "We first collect data from the public web sources."))
  ∈ map step_key (_extract_steps (Reference.sent_tokenize Samples.two_step_text)).
Proof.
  apply _extract_steps_complete.
  - vm_compute. lia.
  - vm_compute. constructor.
  - unfold qualifies. vm_compute. split; [lia | reflexivity].
Defined.

Lemma generate_flowchart_chain_witness :
  2 <= List.length (_extract_steps (Reference.sent_tokenize Samples.two_step_text)) <= 6.
Proof.
  refine (proj1 (generate_flowchart_chain Reference.sent_tokenize Samples.two_step_text
                   (_build_mermaid
                      (_extract_steps (Reference.sent_tokenize Samples.two_step_text))) _)).
  vm_compute. reflexivity.
Defined.

Lemma extract_entities_occur_witness :
  occurs_in "BERT" Cases.abstract_text
  /\ 1 <= Str.count Cases.abstract_text "BERT"
  /\ trimmed "BERT".
Proof.
  apply (extract_entities_occur Cases.abstract_text "models" ["BERT"] "BERT").
  - vm_compute. reflexivity.
  - constructor.
Defined.

Lemma _group_into_sections_content_witness :
  20 <= Str.len Cases.abstract_text.
Proof.
  refine (proj1 (_group_into_sections_content (structured_content_of [Cases.page])
                   "abstract" Cases.abstract_text _)).
  vm_compute. reflexivity.
Defined.

Lemma _group_into_sections_key_origin_witness :
  "methodology" = "introduction"
  \/ exists item, item ∈ structured_content_of [Cases.page]
                  /\ _match_section (Str.strip (Str.lower (text item))) = Some "methodology"
                  /\ (is_header item = true \/ Str.len (text item) < 80).
Proof.
  apply _group_into_sections_key_origin.
  apply elem_of_dom. exists Samples.two_step_text. vm_compute. reflexivity.
Defined.

Lemma _extract_block_text_item_witness :
  Str.len "Abstract" < 100.
Proof.
  refine (proj1 (proj2 (proj2
            (_extract_block_text_item (25 # 2) (Cases.heading "Abstract" 50)
               {| text := "Abstract"; font_size := 14; is_bold := true; is_header := true |}
               _)) eq_refl)).
  vm_compute. reflexivity.
Defined.

Lemma load_unload_round_trip_witness :
  returns _unload_sentence_encoder (final (_load_sentence_encoder Cases.fresh)) tt
    Cases.fresh.
Proof.
  refine (proj2 (proj1 (load_unload_round_trip Cases.fresh _) eq_refl eq_refl _)).
  split; reflexivity.
Defined.

Lemma summarize_section_releases_witness :
  sentence_encoder
    (final (summarize_section (Samples.eight_sentences +:+ " " +:+ Samples.eight_sentences)
              "introduction" Cases.fresh)) = None
  /\ summarizer
       (final (summarize_section (Samples.eight_sentences +:+ " " +:+ Samples.eight_sentences)
                 "introduction" Cases.fresh)) = None.
Proof.
  apply summarize_section_releases.
  - vm_compute. lia.
  - vm_compute. discriminate.
Defined.

Lemma extractive_summary_keeps_all_witness :
  Samples.two_step_text
  = Str.join " " (List.filter is_quality (Reference.sent_tokenize Samples.two_step_text)).
Proof.
  apply (extractive_summary_keeps_all (H := Reference.capabilities)
           Samples.two_step_text (2 # 5) Cases.fresh).
  - vm_compute. lia.
  - vm_compute. lia.
  - vm_compute. reflexivity.
Defined.

Lemma extract_text_from_pdf_empty_witness :
  ~ kept (Cases.raw "  Running head  " 30).
Proof.
  refine (proj1 (extract_text_from_pdf_empty (Some [Cases.fragments])) _
            [Cases.fragments] eq_refl Cases.fragments (Cases.raw "  Running head  " 30) _ _).
  - vm_compute. reflexivity.
  - constructor.
  - unfold Cases.fragments. repeat constructor.
Defined.

Lemma extract_text_from_pdf_keeps_witness :
  occurs_in (Str.strip Cases.abstract_text +:+ nl)
    (extract_text_from_pdf (Some [Cases.raw_page; Cases.fragments])).
Proof.
  apply (extract_text_from_pdf_keeps _ Cases.raw_page (Cases.raw Cases.abstract_text 70)).
  - constructor.
  - unfold Cases.raw_page. repeat constructor.
  - reflexivity.
  - vm_compute. lia.
Defined.

Lemma summarize_paper_sections_witness :
  sections_found (Cases.report Cases.paper) <> []
  /\ NoDup (sections_found (Cases.report Cases.paper))
  /\ (forall name, name ∈ sections_found (Cases.report Cases.paper) -> name ∈ vocabulary)
  /\ map fst (section_summaries (Cases.report Cases.paper))
     = map fst (List.filter (fun kv => negb (is_empty kv.2)) (sections_of Cases.paper))
  /\ map fst (section_keywords (Cases.report Cases.paper))
     = map fst (section_summaries (Cases.report Cases.paper)).
Proof.
  apply (summarize_paper_sections (H := Reference.capabilities) Cases.paper Cases.fresh).
  vm_compute. reflexivity.
Defined.

Lemma summarize_paper_flowchart_witness :
  exists methodology,
    extract_sections_from_pdf (layout Cases.paper) !! "methodology" = Some methodology
    /\ generate_flowchart Reference.sent_tokenize methodology
       = Some (_build_mermaid
                 (_extract_steps (Reference.sent_tokenize Samples.two_step_text))).
Proof.
  apply (summarize_paper_flowchart (H := Reference.capabilities) Cases.paper Cases.fresh
           (Cases.report Cases.paper)).
  - vm_compute. reflexivity.
  - vm_compute. reflexivity.
Defined.

Lemma summarize_paper_short_section_witness :
  ("abstract", preprocess_text Cases.abstract_text)
    ∈ section_summaries (Cases.report Cases.paper)
  /\ ("abstract", []) ∈ section_keywords (Cases.report Cases.paper).
Proof.
  apply (summarize_paper_short_section (H := Reference.capabilities) Cases.paper Cases.fresh).
  - vm_compute. reflexivity.
  - vm_compute. constructor.
  - discriminate.
  - vm_compute. lia.
Defined.

Lemma summarize_paper_residency_witness :
  existsb (Cases.binds F_sentence_encoder)
    (log (summarize_paper Cases.long_paper Cases.fresh)) = true
  /\ existsb (Cases.binds F_summarizer)
       (log (summarize_paper Cases.long_paper Cases.fresh)) = true
  /\ Forall (fun entry : Event * State =>
               ~ both_resident entry.2
               /\ (entry.1 = Assign F_summarizer -> sentence_encoder entry.2 = None)
               /\ (entry.1 = Call "extract_keywords" -> summarizer entry.2 = None))
       (log (summarize_paper Cases.long_paper Cases.fresh))
  /\ ~ both_resident (final (summarize_paper Cases.long_paper Cases.fresh))
  /\ (value (summarize_paper Cases.long_paper Cases.fresh) <> None ->
      summarizer (final (summarize_paper Cases.long_paper Cases.fresh)) = None).
Proof.
  split; [vm_compute; reflexivity|]. split; [vm_compute; reflexivity|].
  exact (summarize_paper_residency Cases.long_paper Cases.fresh eq_refl).
Defined.



End OnSamples.
